(** * Event-sourcing core and IAM member commands of zitadel (eventstore v2)

    Shallow embedding of
    - [internal/v2/business/iam/member.go] (AddIAMMember, RemoveIAMMember,
      MemberByID) and [internal/v2/business/iam/repository.go] (iamByID);
    - the IAM IDP OIDC write model ([IDPOIDCConfigWriteModel.AppendEvents]);
    - the eventstore v2 package, whose production code is not part of the
      sources at hand: only its test file is.  The parts the IAM code and the
      tests rely on are modelled from the design notes and from that test
      file, each such definition says so in its comment.

    Go's [(T, error)] results are modelled by [outcome]; a nil pointer
    dereference is [Panic].  Port calls (filter, push, latest sequence) run
    in a state monad over the event log that also records every call made,
    so that "push is never invoked" is a statement about that record. *)

From Stdlib Require Import String List Bool ZArith Lia.
From stdpp Require Import base gmap strings.
Import ListNotations.
Open Scope string_scope.
Open Scope list_scope.
Local Set Warnings "-register-all".

(* ------------------------------------------------------------------ *)
(** ** Errors (caos_errs) and results *)

Inductive ErrKind :=
| PreconditionFailed
| InvalidArgument
| Internal
| InvalidQuery
| UnknownEventType
| Concurrency
| Unimplemented.

Record CaosError := mkCaosError {
  errKind : ErrKind;
  errID : string;
  errMsg : string
}.

(** A Go call returning [(T, error)]; [Panic] is a run-time panic
    (nil pointer dereference). *)
Inductive outcome (A : Type) :=
| Ok (a : A)
| Err (e : CaosError)
| Panic.
Arguments Ok {A} a.
Arguments Err {A} e.
Arguments Panic {A}.

Definition bindO {A B} (m : outcome A) (f : A -> outcome B) : outcome B :=
  match m with
  | Ok a => f a
  | Err e => Err e
  | Panic => Panic
  end.

Notation "'let?' x ':=' m 'in' f" := (bindO m (fun x => f))
  (at level 200, x name, m at level 100, f at level 200).

Definition isErrKind {A} (k : ErrKind) (o : outcome A) : bool :=
  match o with
  | Err e => match errKind e, k with
             | PreconditionFailed, PreconditionFailed
             | InvalidArgument, InvalidArgument
             | Internal, Internal
             | InvalidQuery, InvalidQuery
             | UnknownEventType, UnknownEventType
             | Concurrency, Concurrency
             | Unimplemented, Unimplemented => true
             | _, _ => false
             end
  | _ => false
  end.

(* ------------------------------------------------------------------ *)
(** ** JSON documents and Go payload values *)

Inductive json :=
| JNull
| JBool (b : bool)
| JNum (z : Z)
| JStr (s : string)
| JArr (xs : list json)
| JObj (fields : list (string * json)).

(** The dynamic value an event's [Data()] returns ([interface{}]). *)
Inductive GoValue :=
| GNil                                      (* untyped nil *)
| GBytes (b : string)                       (* []byte *)
| GString (s : string)
| GInt (z : Z)
| GBool (b : bool)
| GStruct (fields : list (string * GoValue)) (* fields with their json tags *)
| GMap (entries : list (string * GoValue))   (* map[string]T *)
| GSlice (xs : list GoValue)
| GPtr (v : GoValue)
| GChan.                                    (* not representable in JSON *)

Section Marshal.
(** [encoding/json]'s decoder on raw bytes: [None] when the bytes are not
    valid JSON. *)
Variable json_decode : string -> option json.

(** [json.Marshal]: a channel anywhere in the value makes it fail.  A
    [[]byte] is written by Go as a base64 string; the model keeps the raw
    string. *)
Fixpoint marshal (v : GoValue) : option json :=
  let fix fields (fs : list (string * GoValue)) : option (list (string * json)) :=
    match fs with
    | [] => Some []
    | (k, x) :: rest =>
        match marshal x, fields rest with
        | Some j, Some js => Some ((k, j) :: js)
        | _, _ => None
        end
    end in
  let fix elems (xs : list GoValue) : option (list json) :=
    match xs with
    | [] => Some []
    | x :: rest =>
        match marshal x, elems rest with
        | Some j, Some js => Some (j :: js)
        | _, _ => None
        end
    end in
  match v with
  | GNil => Some JNull
  | GBytes b => Some (JStr b)
  | GString s => Some (JStr s)
  | GInt z => Some (JNum z)
  | GBool b => Some (JBool b)
  | GStruct fs => option_map JObj (fields fs)
  | GMap es => option_map JObj (fields es)
  | GSlice xs => option_map JArr (elems xs)
  | GPtr x => marshal x
  | GChan => None
  end.

(** Modelled from the spec: [eventData] of the eventstore (not in the
    sources).  "Payloads must marshal as a JSON object (map or struct-like);
    scalars and arrays at the top level are rejected at push time. [null]
    payload is legal and stored as SQL NULL."  Raw bytes are taken as they
    are when they decode to a JSON object, as the test [Test_eventData]
    expects. *)
Definition eventData (data : GoValue) : outcome (option json) :=
  match data with
  | GNil => Ok None
  | GBytes b =>
      match json_decode b with
      | Some (JObj o) => Ok (Some (JObj o))
      | _ => Err (mkCaosError InvalidArgument "V2-6SbbS" "data bytes are not json")
      end
  | _ =>
      match marshal data with
      | Some (JObj o) => Ok (Some (JObj o))
      | Some _ => Err (mkCaosError InvalidArgument "V2-91NRm" "wrong type of event data")
      | None => Err (mkCaosError InvalidArgument "V2-xG87M" "could not marshal data")
      end
  end.

End Marshal.

(** Top-level scalars of a payload. *)
Definition is_scalar (v : GoValue) : bool :=
  match v with
  | GString _ | GInt _ | GBool _ => true
  | _ => false
  end.

Definition is_bytes (v : GoValue) : bool :=
  match v with GBytes _ => true | _ => false end.

(* ------------------------------------------------------------------ *)
(** ** Stored events ([eventstore/v2/repository]) *)

(** A [*repository.Event] is identified by its address; the batch handed
    to the store is a slice of such pointers. *)
Definition Ptr := nat.

Module repository.

Record Event := mkEvent {
  AggregateID : string;
  AggregateType : string;
  Version : string;
  Type_ : string;
  Sequence : nat;
  PreviousSequence : nat;
  CheckPreviousSequence : bool;
  ResourceOwner : string;
  EditorService : string;
  EditorUser : string;
  Data : option json;
  PreviousEvent : option Ptr
}.

Inductive Columns := ColumnsEvent | ColumnsMaxSequence.

(** [repository.SearchQuery] as handed to the store. *)
Record SearchQuery := mkSearchQuery {
  sq_Columns : Columns;
  sq_AggregateTypes : list string;
  sq_AggregateIDs : list string;
  sq_EventTypes : list string;
  sq_EventData : list (string * json)
}.

End repository.

Definition setPreviousEvent (e : repository.Event) (p : option Ptr) : repository.Event :=
  {| repository.AggregateID := repository.AggregateID e;
     repository.AggregateType := repository.AggregateType e;
     repository.Version := repository.Version e;
     repository.Type_ := repository.Type_ e;
     repository.Sequence := repository.Sequence e;
     repository.PreviousSequence := repository.PreviousSequence e;
     repository.CheckPreviousSequence := repository.CheckPreviousSequence e;
     repository.ResourceOwner := repository.ResourceOwner e;
     repository.EditorService := repository.EditorService e;
     repository.EditorUser := repository.EditorUser e;
     repository.Data := repository.Data e;
     repository.PreviousEvent := p |}.

Definition setSequence (e : repository.Event) (n : nat) : repository.Event :=
  {| repository.AggregateID := repository.AggregateID e;
     repository.AggregateType := repository.AggregateType e;
     repository.Version := repository.Version e;
     repository.Type_ := repository.Type_ e;
     repository.Sequence := n;
     repository.PreviousSequence := repository.PreviousSequence e;
     repository.CheckPreviousSequence := repository.CheckPreviousSequence e;
     repository.ResourceOwner := repository.ResourceOwner e;
     repository.EditorService := repository.EditorService e;
     repository.EditorUser := repository.EditorUser e;
     repository.Data := repository.Data e;
     repository.PreviousEvent := repository.PreviousEvent e |}.

(* ------------------------------------------------------------------ *)
(** ** Events to push and aggregates ([Event], [aggregater]) *)

Record PushEvent := mkPushEvent {
  pe_Type : string;
  pe_Data : GoValue;
  pe_CheckPrevious : bool;
  pe_EditorService : string;
  pe_EditorUser : string
}.

Record Aggregate := mkAggregate {
  agg_ID : string;
  agg_Type : string;
  agg_Events : list PushEvent;
  agg_ResourceOwner : string;
  agg_Version : string;
  agg_PreviousSequence : nat
}.

Section Batch.
Variable json_decode : string -> option json.

Definition newRepoEvent (a : Aggregate) (ev : PushEvent) (data : option json)
    (prev : option Ptr) : repository.Event :=
  {| repository.AggregateID := agg_ID a;
     repository.AggregateType := agg_Type a;
     repository.Version := agg_Version a;
     repository.Type_ := pe_Type ev;
     repository.Sequence := 0;
     repository.PreviousSequence := agg_PreviousSequence a;
     repository.CheckPreviousSequence := pe_CheckPrevious ev;
     repository.ResourceOwner := agg_ResourceOwner a;
     repository.EditorService := pe_EditorService ev;
     repository.EditorUser := pe_EditorUser ev;
     repository.Data := data;
     repository.PreviousEvent := prev |}.

(** The events of one aggregate; [next] is the address the next allocated
    [repository.Event] gets, [prev] the event the next one links to. *)
Fixpoint aggregateEvents (a : Aggregate) (prev : option Ptr) (next : Ptr)
    (evs : list PushEvent) : outcome (list (Ptr * repository.Event)) :=
  match evs with
  | [] => Ok []
  | ev :: rest =>
      let? data := eventData json_decode (pe_Data ev) in
      let? tl := aggregateEvents a (Some next) (S next) rest in
      Ok ((next, newRepoEvent a ev data prev) :: tl)
  end.

(** [Eventstore.aggregatesToEvents] (not in the sources), as its test
    [TestEventstore_aggregatesToEvents] fixes it: the events of one
    aggregate are linked to each other through [PreviousEvent]; the link
    starts afresh ([nil]) with every aggregate. *)
Fixpoint aggregatesToEvents_from (next : Ptr) (aggregates : list Aggregate)
    : outcome (list (Ptr * repository.Event)) :=
  match aggregates with
  | [] => Ok []
  | a :: rest =>
      let? evs := aggregateEvents a None next (agg_Events a) in
      let? tl := aggregatesToEvents_from (next + List.length evs) rest in
      Ok (evs ++ tl)
  end.

Definition aggregatesToEvents (aggregates : list Aggregate) :=
  aggregatesToEvents_from 0 aggregates.

(** Modelled from the spec: the batch linking as the design notes word it,
    "each event's [previous_event] back-reference points to the prior event
    of the same batch, independent of aggregate". *)
Fixpoint aggregatesToEvents_spec_from (prev : option Ptr) (next : Ptr)
    (aggregates : list Aggregate) : outcome (list (Ptr * repository.Event)) :=
  match aggregates with
  | [] => Ok []
  | a :: rest =>
      let? evs := aggregateEvents a prev next (agg_Events a) in
      let prev' := match rev evs with (p, _) :: _ => Some p | [] => prev end in
      let? tl := aggregatesToEvents_spec_from prev' (next + List.length evs) rest in
      Ok (evs ++ tl)
  end.

Definition aggregatesToEvents_spec (aggregates : list Aggregate) :=
  aggregatesToEvents_spec_from None 0 aggregates.

End Batch.

(** The batch's back-references as the claim words them: every event but
    the first points to the event right before it. *)
Fixpoint chained (prev : option Ptr) (evs : list (Ptr * repository.Event)) : Prop :=
  match evs with
  | [] => True
  | (p, e) :: rest => repository.PreviousEvent e = prev /\ chained (Some p) rest
  end.

(* ------------------------------------------------------------------ *)
(** ** Test helpers of [eventstore_test.go] *)

(** [linkEvents]: [events[i].PreviousEvent = events[i-1]] for [i >= 1]. *)
Fixpoint linkEvents_from (prev : option Ptr) (events : list (Ptr * repository.Event))
    : list (Ptr * repository.Event) :=
  match events with
  | [] => []
  | (p, e) :: rest =>
      let e' := match prev with None => e | Some q => setPreviousEvent e (Some q) end in
      (p, e') :: linkEvents_from (Some p) rest
  end.

Definition linkEvents (events : list (Ptr * repository.Event)) := linkEvents_from None events.

(** [combineEventLists]. *)
Definition combineEventLists (lists : list (list (Ptr * repository.Event))) :=
  fold_left (fun events l => events ++ l) lists [].

Fixpoint json_eqb (a b : json) : bool :=
  match a, b with
  | JNull, JNull => true
  | JBool x, JBool y => Bool.eqb x y
  | JNum x, JNum y => Z.eqb x y
  | JStr x, JStr y => String.eqb x y
  | JArr xs, JArr ys =>
      (fix go (xs ys : list json) : bool :=
         match xs, ys with
         | [], [] => true
         | x :: xs', y :: ys' => json_eqb x y && go xs' ys'
         | _, _ => false
         end) xs ys
  | JObj fs, JObj gs =>
      (fix go (fs gs : list (string * json)) : bool :=
         match fs, gs with
         | [], [] => true
         | (k, x) :: fs', (l, y) :: gs' => String.eqb k l && json_eqb x y && go fs' gs'
         | _, _ => false
         end) fs gs
  | _, _ => false
  end.

(** [reflect.DeepEqual] on the [Data] bytes. *)
Definition opt_json_eqb (a b : option json) : bool :=
  match a, b with
  | None, None => true
  | Some x, Some y => json_eqb x y
  | _, _ => false
  end.

Definition is_linked (e : repository.Event) : bool :=
  match repository.PreviousEvent e with Some _ => true | None => false end.

(** [compareEvents]: the fields the test compares, the back-reference only
    by whether it is nil. *)
Definition compareEvents (want got : repository.Event) : bool :=
  String.eqb (repository.AggregateID want) (repository.AggregateID got) &&
  String.eqb (repository.AggregateType want) (repository.AggregateType got) &&
  Bool.eqb (repository.CheckPreviousSequence want) (repository.CheckPreviousSequence got) &&
  opt_json_eqb (repository.Data want) (repository.Data got) &&
  String.eqb (repository.EditorService want) (repository.EditorService got) &&
  String.eqb (repository.EditorUser want) (repository.EditorUser got) &&
  String.eqb (repository.ResourceOwner want) (repository.ResourceOwner got) &&
  String.eqb (repository.Type_ want) (repository.Type_ got) &&
  String.eqb (repository.Version want) (repository.Version got) &&
  Bool.eqb (is_linked want) (is_linked got) &&
  Nat.eqb (repository.PreviousSequence want) (repository.PreviousSequence got).

(** The test's verdict on one case: same length and every position
    compared. *)
Definition aggregatesToEvents_test_passes (want : list (Ptr * repository.Event))
    (got : outcome (list (Ptr * repository.Event))) : bool :=
  match got with
  | Ok evs =>
      Nat.eqb (List.length want) (List.length evs) &&
      forallb (fun '(w, g) => compareEvents (snd w) (snd g)) (combine want evs)
  | _ => false
  end.

(** The inputs of the case "multiple aggregates" of
    [TestEventstore_aggregatesToEvents]. *)
Definition testEvent (checkPrevious : bool) : PushEvent :=
  {| pe_Type := "test.event"; pe_Data := GNil; pe_CheckPrevious := checkPrevious;
     pe_EditorService := "editorService"; pe_EditorUser := "editorUser" |}.

Definition testAggregate (id : string) (events : list PushEvent) : Aggregate :=
  {| agg_ID := id; agg_Type := "test.aggregate"; agg_Events := events;
     agg_ResourceOwner := "ro"; agg_Version := "v1"; agg_PreviousSequence := 0 |}.

Definition multipleAggregates : list Aggregate :=
  [testAggregate "1" [testEvent false; testEvent false];
   testAggregate "2" [testEvent true]].

Definition expectedTestEvent (id : string) (checkPrevious : bool) : repository.Event :=
  {| repository.AggregateID := id; repository.AggregateType := "test.aggregate";
     repository.Version := "v1"; repository.Type_ := "test.event";
     repository.Sequence := 0; repository.PreviousSequence := 0;
     repository.CheckPreviousSequence := checkPrevious;
     repository.ResourceOwner := "ro"; repository.EditorService := "editorService";
     repository.EditorUser := "editorUser"; repository.Data := None;
     repository.PreviousEvent := None |}.

(** [combineEventLists(linkEvents(&e1, &e2), []*repository.Event{&e3})]; the
    three events are allocated in this order. *)
Definition multipleAggregatesExpected : list (Ptr * repository.Event) :=
  combineEventLists
    [linkEvents [(0, expectedTestEvent "1" false); (1, expectedTestEvent "1" false)];
     [(2, expectedTestEvent "2" true)]].

(** A decoder for raw bytes is not needed by these inputs. *)
Definition no_json_decode (_ : string) : option json := None.

(* ------------------------------------------------------------------ *)
(** ** Mapped events ([EventReader]) *)

Record BaseEvent := mkBaseEvent {
  be_AggregateID : string;
  be_Sequence : nat;
  be_Type : string
}.

(** [oidc.ConfigAddedEvent] / [oidc.ConfigChangedEvent] (the fields the
    write model looks at). *)
Record ConfigAddedEvent := mkConfigAddedEvent {
  ca_Base : BaseEvent;
  ca_IDPConfigID : string;
  ca_ClientID : string;
  ca_Issuer : string
}.

Record ConfigChangedEvent := mkConfigChangedEvent {
  cc_Base : BaseEvent;
  cc_IDPConfigID : string;
  cc_ClientID : option string;
  cc_Issuer : option string
}.

(** The dynamic types a type switch on an [eventstore.EventReader] can
    meet. *)
Inductive EventReader :=
| MemberAddedEvent (b : BaseEvent) (userID : string) (roles : list string)
| MemberChangedEvent (b : BaseEvent) (userID : string) (roles : list string)
| MemberRemovedEvent (b : BaseEvent) (userID : string)
| IDPOIDCConfigAddedEvent (e : ConfigAddedEvent)       (* *iam.IDPOIDCConfigAddedEvent *)
| IDPOIDCConfigChangedEvent (e : ConfigChangedEvent)   (* *iam.IDPOIDCConfigChangedEvent *)
| OIDCConfigAddedEvent (e : ConfigAddedEvent)          (* *oidc.ConfigAddedEvent *)
| OIDCConfigChangedEvent (e : ConfigChangedEvent)      (* *oidc.ConfigChangedEvent *)
| OtherEvent (b : BaseEvent).

Definition EventMapperFunc := repository.Event -> outcome EventReader.

(* ------------------------------------------------------------------ *)
(** ** Event mapper registry *)

Record eventTypeInterceptors := mkInterceptors {
  interceptor_eventMapper : option EventMapperFunc    (* nil when unset *)
}.

Record Eventstore := mkEventstore {
  eventMapper : gmap string eventTypeInterceptors
}.

(** Modelled from the spec: [Eventstore.RegisterFilterEventMapper] (not in
    the sources).  "Registration with an empty type name or a nil decoder is
    silently ignored"; "registering the same type twice replaces the
    decoder". *)
Definition RegisterFilterEventMapper (es : Eventstore) (eventType : string)
    (mapper : option EventMapperFunc) : Eventstore :=
  match mapper with
  | None => es
  | Some f =>
      if String.eqb eventType "" then es
      else
        mkEventstore (<[eventType := {| interceptor_eventMapper := Some f |}]> (eventMapper es))
  end.

(** Modelled from the spec: [Eventstore.mapEvents] (not in the sources).
    For each stored event: look up the decoder of its type, "returns
    [UnknownEventType] if no decoder is registered", otherwise run it; the
    first failure aborts the mapping. *)
Fixpoint mapEvents (es : Eventstore) (events : list repository.Event)
    : outcome (list EventReader) :=
  match events with
  | [] => Ok []
  | e :: rest =>
      match eventMapper es !! repository.Type_ e with
      | Some {| interceptor_eventMapper := Some f |} =>
          let? mapped := f e in
          let? tl := mapEvents es rest in
          Ok (mapped :: tl)
      | _ => Err (mkCaosError UnknownEventType "V2-usujB" "event mapper not defined")
      end
  end.

(** The stored event has a decoder in the table. *)
Definition has_decoder (es : Eventstore) (e : repository.Event) : bool :=
  match eventMapper es !! repository.Type_ e with
  | Some {| interceptor_eventMapper := Some _ |} => true
  | _ => false
  end.

(* ------------------------------------------------------------------ *)
(** ** Search query builder ([SearchQueryFactory]) *)

(** Modelled from the spec (the builder is not in the sources): the fields
    a query can set, and the fluent setters the IAM code calls. *)
Record SearchQueryFactory := mkSearchQueryFactory {
  columns : repository.Columns;
  aggregateTypes : list string;
  aggregateIDs : list string;
  eventTypes : list string;
  dataQuery : list (string * json)
}.

Definition NewSearchQueryFactory (c : repository.Columns) (types : list string)
    : SearchQueryFactory :=
  mkSearchQueryFactory c types [] [] [].

Definition AggregateIDs (f : SearchQueryFactory) (ids : list string) : SearchQueryFactory :=
  mkSearchQueryFactory (columns f) (aggregateTypes f) ids (eventTypes f) (dataQuery f).

Definition EventData (f : SearchQueryFactory) (query : list (string * json))
    : SearchQueryFactory :=
  mkSearchQueryFactory (columns f) (aggregateTypes f) (aggregateIDs f) (eventTypes f) query.

(** Modelled from the spec: [SearchQueryFactory.build].  A nil factory or
    one without an aggregate type is an [InvalidQuery]. *)
Definition build (factory : option SearchQueryFactory) : outcome repository.SearchQuery :=
  match factory with
  | None => Err (mkCaosError InvalidQuery "MODEL-tGAD3" "factory invalid")
  | Some f =>
      match aggregateTypes f with
      | [] => Err (mkCaosError InvalidQuery "MODEL-tGAD3" "factory invalid")
      | _ => Ok (repository.mkSearchQuery (columns f) (aggregateTypes f)
                   (aggregateIDs f) (eventTypes f) (dataQuery f))
      end
  end.

(* ------------------------------------------------------------------ *)
(** ** The persistence port and the store behind it *)

Inductive PortCall :=
| CallPush (events : list repository.Event)
| CallFilter (q : repository.SearchQuery)
| CallLatestSequence (q : repository.SearchQuery).

(** The event log (ascending by sequence) and the port calls made so far,
    newest last. *)
Record Store := mkStore {
  log : list repository.Event;
  calls : list PortCall
}.

Definition ES (A : Type) := Store -> outcome A * Store.

Definition retES {A} (a : A) : ES A := fun st => (Ok a, st).
Definition liftO {A} (o : outcome A) : ES A := fun st => (o, st).
Definition bindES {A B} (m : ES A) (f : A -> ES B) : ES B :=
  fun st =>
    match m st with
    | (Ok a, st') => f a st'
    | (Err e, st') => (Err e, st')
    | (Panic, st') => (Panic, st')
    end.

Notation "'let!' x ':=' m 'in' f" := (bindES m (fun x => f))
  (at level 200, x name, m at level 100, f at level 200).

Definition record_call (c : PortCall) (st : Store) : Store :=
  mkStore (log st) (calls st ++ [c]).

Definition lookup_data (k : string) (d : option json) : option json :=
  match d with
  | Some (JObj fs) => match find (fun kv => String.eqb (fst kv) k) fs with
                      | Some (_, v) => Some v
                      | None => None
                      end
  | _ => None
  end.

Definition in_strings (x : string) (xs : list string) : bool :=
  existsb (String.eqb x) xs.

(** Modelled from the spec, "Filter semantics": predicates combine with
    AND, the values of one predicate with OR; an empty list does not
    restrict; data predicates are equality on the payload's keys. *)
Definition matches (q : repository.SearchQuery) (e : repository.Event) : bool :=
  in_strings (repository.AggregateType e) (repository.sq_AggregateTypes q) &&
  (match repository.sq_AggregateIDs q with
   | [] => true | ids => in_strings (repository.AggregateID e) ids end) &&
  (match repository.sq_EventTypes q with
   | [] => true | ts => in_strings (repository.Type_ e) ts end) &&
  forallb (fun kv => match lookup_data (fst kv) (repository.Data e) with
                     | Some v => json_eqb v (snd kv)
                     | None => false
                     end) (repository.sq_EventData q).

(** Modelled from the spec: [repository.Filter]. *)
Definition repoFilter (q : repository.SearchQuery) : ES (list repository.Event) :=
  fun st => (Ok (filter (matches q) (log st)), record_call (CallFilter q) st).

Definition max_sequence (evs : list repository.Event) : nat :=
  fold_left (fun m e => Nat.max m (repository.Sequence e)) evs 0.

(** Modelled from the spec: [repository.LatestSequence], the max sequence
    of the matching events, or 0. *)
Definition repoLatestSequence (q : repository.SearchQuery) : ES nat :=
  fun st => (Ok (max_sequence (filter (matches q) (log st))),
             record_call (CallLatestSequence q) st).

Definition aggregate_max_sequence (l : list repository.Event) (e : repository.Event) : nat :=
  max_sequence (filter (fun x => String.eqb (repository.AggregateType x) (repository.AggregateType e)
                               && String.eqb (repository.AggregateID x) (repository.AggregateID e)) l).

Fixpoint assign_sequences (next : nat) (evs : list repository.Event) : list repository.Event :=
  match evs with
  | [] => []
  | e :: rest => setSequence e next :: assign_sequences (S next) rest
  end.

(** Modelled from the spec: [repository.Push].  An event that checks its
    previous sequence conflicts when its aggregate already has an event
    above it; otherwise the whole batch is appended in order with fresh
    ascending sequences. *)
Definition repoPush (events : list repository.Event) : ES (list repository.Event) :=
  fun st =>
    let st' := record_call (CallPush events) st in
    if existsb (fun e => repository.CheckPreviousSequence e &&
                         Nat.ltb (repository.PreviousSequence e) (aggregate_max_sequence (log st) e))
               events
    then (Err (mkCaosError Concurrency "SQL-DJ7Pd" "concurrency conflict"), st')
    else
      let stored := assign_sequences (S (max_sequence (log st))) events in
      (Ok stored, mkStore (log st ++ stored) (calls st')).

(* ------------------------------------------------------------------ *)
(** ** Eventstore operations *)

(** A read model: [AppendEvents] and [Reduce] of the [reducer] interface;
    the Go pointer receiver becomes the returned model. *)
Record reducer (R : Type) := mkReducer {
  AppendEvents : R -> list EventReader -> outcome R;
  Reduce : R -> outcome R
}.
Arguments AppendEvents {R} _ _ _.
Arguments Reduce {R} _ _.

Section Operations.
Variable json_decode : string -> option json.
Variable es : Eventstore.

(** Modelled from the spec: [Eventstore.FilterEvents]: build the query
    (an invalid one does not reach the store), filter, map. *)
Definition FilterEvents (queryFactory : option SearchQueryFactory) : ES (list EventReader) :=
  let! query := liftO (build queryFactory) in
  let! events := repoFilter query in
  liftO (mapEvents es events).

(** Modelled from the spec: [Eventstore.FilterToReducer]: "filters, maps,
    appends to the reducer, and calls [reduce()]". *)
Definition FilterToReducer {R} (queryFactory : option SearchQueryFactory)
    (red : reducer R) (r : R) : ES R :=
  let! events := FilterEvents queryFactory in
  let! r1 := liftO (AppendEvents red r events) in
  liftO (Reduce red r1).

(** Modelled from the spec: [Eventstore.LatestSequence]. *)
Definition LatestSequence (queryFactory : option SearchQueryFactory) : ES nat :=
  let! query := liftO (build queryFactory) in
  repoLatestSequence query.

(** Modelled from the spec: [Eventstore.PushAggregates]: turn the
    aggregates into one batch, push it, map the stored events. *)
Definition PushAggregates (aggregates : list Aggregate) : ES (list EventReader) :=
  let! events := liftO (aggregatesToEvents json_decode aggregates) in
  let! stored := repoPush (map snd events) in
  liftO (mapEvents es stored).

End Operations.

(* ------------------------------------------------------------------ *)
(** ** IAM domain ([v2/repository/iam], [iam/model]) *)

(** The caller's context: the editor written into pushed events. *)
Record Context := mkContext {
  ctxEditorService : string;
  ctxEditorUser : string
}.

Module iam_model.
(** [iam_model.IAMMember]. *)
Record IAMMember := mkIAMMember {
  AggregateID : string;
  UserID : string;
  Roles : list string
}.
End iam_model.

Definition AggregateType : string := "iam".
Definition MemberAddedEventType : string := "iam.member.added".
Definition MemberChangedEventType : string := "iam.member.changed".
Definition MemberRemovedEventType : string := "iam.member.removed".

Record MemberReadModel := mkMemberReadModel {
  mr_UserID : string;
  mr_Roles : list string
}.

(** Modelled from the spec: [iam_repo.ReadModel] (not in the sources), the
    IAM state folded from its events: the generic read-model part
    (aggregate, processed-sequence watermark, pending events) and the
    members. *)
Record ReadModel := mkReadModel {
  rm_AggregateID : string;
  rm_ProcessedSequence : nat;
  rm_Events : list EventReader;
  rm_Members : list MemberReadModel
}.

Definition NewReadModel (id : string) : ReadModel := mkReadModel id 0 [] [].

Definition ReadModel_Query (rm : ReadModel) : SearchQueryFactory :=
  AggregateIDs (NewSearchQueryFactory repository.ColumnsEvent [AggregateType])
    [rm_AggregateID rm].

Definition event_sequence (ev : EventReader) : nat :=
  match ev with
  | MemberAddedEvent b _ _ | MemberChangedEvent b _ _ | MemberRemovedEvent b _
  | OtherEvent b => be_Sequence b
  | IDPOIDCConfigAddedEvent e | OIDCConfigAddedEvent e => be_Sequence (ca_Base e)
  | IDPOIDCConfigChangedEvent e | OIDCConfigChangedEvent e => be_Sequence (cc_Base e)
  end.

Definition reduceMembers (ms : list MemberReadModel) (ev : EventReader) : list MemberReadModel :=
  match ev with
  | MemberAddedEvent _ u roles => ms ++ [mkMemberReadModel u roles]
  | MemberChangedEvent _ u roles =>
      map (fun m => if String.eqb (mr_UserID m) u then mkMemberReadModel u roles else m) ms
  | MemberRemovedEvent _ u => filter (fun m => negb (String.eqb (mr_UserID m) u)) ms
  | _ => ms
  end.

Definition ReadModel_AppendEvents (rm : ReadModel) (events : list EventReader) : outcome ReadModel :=
  Ok (mkReadModel (rm_AggregateID rm) (rm_ProcessedSequence rm) (rm_Events rm ++ events)
        (rm_Members rm)).

Definition ReadModel_Reduce (rm : ReadModel) : outcome ReadModel :=
  Ok (mkReadModel (rm_AggregateID rm)
        (fold_left (fun s ev => Nat.max s (event_sequence ev)) (rm_Events rm) (rm_ProcessedSequence rm))
        []
        (fold_left reduceMembers (rm_Events rm) (rm_Members rm))).

Definition ReadModelReducer : reducer ReadModel :=
  mkReducer ReadModel ReadModel_AppendEvents ReadModel_Reduce.

Definition AppendAndReduce (rm : ReadModel) (events : list EventReader) : outcome ReadModel :=
  let? rm1 := ReadModel_AppendEvents rm events in
  ReadModel_Reduce rm1.

(** Modelled from the spec: [MembersReadModel.MemberByUserID], the index
    of the member with that user id and the member, or [-1] and nil. *)
Fixpoint MemberByUserID_from (i : Z) (ms : list MemberReadModel) (userID : string)
    : Z * option MemberReadModel :=
  match ms with
  | [] => ((-1)%Z, None)
  | m :: rest => if String.eqb (mr_UserID m) userID then (i, Some m)
                 else MemberByUserID_from (i + 1)%Z rest userID
  end.

Definition MemberByUserID (ms : list MemberReadModel) (userID : string) :=
  MemberByUserID_from 0%Z ms userID.

(** Modelled from the spec: the member read model [iam_repo.MemberReadModel]
    folded by [MemberByID]. *)
Record MemberQueryModel := mkMemberQueryModel {
  mq_Events : list EventReader;
  mq_UserID : string;
  mq_Roles : list string
}.

Definition reduceMember (m : MemberReadModel) (ev : EventReader) : MemberReadModel :=
  match ev with
  | MemberAddedEvent _ u roles | MemberChangedEvent _ u roles => mkMemberReadModel u roles
  | MemberRemovedEvent _ u => mkMemberReadModel u []
  | _ => m
  end.

Definition MemberQueryReducer : reducer MemberQueryModel :=
  mkReducer MemberQueryModel
    (fun m events => Ok (mkMemberQueryModel (mq_Events m ++ events) (mq_UserID m) (mq_Roles m)))
    (fun m => let r := fold_left reduceMember (mq_Events m) (mkMemberReadModel (mq_UserID m) (mq_Roles m)) in
              Ok (mkMemberQueryModel [] (mr_UserID r) (mr_Roles r))).

Definition newMemberQueryModel : MemberQueryModel := mkMemberQueryModel [] "" [].

(** Event mappers of the member events: the payload is
    [{"userId": ..., "roles": [...]}]. *)
Definition base_of (e : repository.Event) : BaseEvent :=
  mkBaseEvent (repository.AggregateID e) (repository.Sequence e) (repository.Type_ e).

Definition decode_roles (j : option json) : list string :=
  match j with
  | Some (JArr xs) => flat_map (fun x => match x with JStr s => [s] | _ => [] end) xs
  | _ => []
  end.

Definition decode_user (e : repository.Event) : outcome string :=
  match lookup_data "userId" (repository.Data e) with
  | Some (JStr u) => Ok u
  | _ => Err (mkCaosError InvalidArgument "IAM-Ekhmo" "unable to unmarshal member")
  end.

Definition MemberAddedEventMapper (e : repository.Event) : outcome EventReader :=
  let? u := decode_user e in
  Ok (MemberAddedEvent (base_of e) u (decode_roles (lookup_data "roles" (repository.Data e)))).

Definition MemberChangedEventMapper (e : repository.Event) : outcome EventReader :=
  let? u := decode_user e in
  Ok (MemberChangedEvent (base_of e) u (decode_roles (lookup_data "roles" (repository.Data e)))).

Definition MemberRemovedEventMapper (e : repository.Event) : outcome EventReader :=
  let? u := decode_user e in
  Ok (MemberRemovedEvent (base_of e) u).

Definition RegisterMemberMappers (es : Eventstore) : Eventstore :=
  RegisterFilterEventMapper
    (RegisterFilterEventMapper
       (RegisterFilterEventMapper es MemberAddedEventType (Some MemberAddedEventMapper))
       MemberChangedEventType (Some MemberChangedEventMapper))
    MemberRemovedEventType (Some MemberRemovedEventMapper).

(** Events pushed for members. *)
Definition NewMemberAddedEvent (ctx : Context) (userID : string) (roles : list string) : PushEvent :=
  {| pe_Type := MemberAddedEventType;
     pe_Data := GPtr (GStruct [("userId", GString userID); ("roles", GSlice (map GString roles))]);
     pe_CheckPrevious := true;
     pe_EditorService := ctxEditorService ctx; pe_EditorUser := ctxEditorUser ctx |}.

Definition NewMemberRemovedEvent (ctx : Context) (userID : string) : PushEvent :=
  {| pe_Type := MemberRemovedEventType;
     pe_Data := GPtr (GStruct [("userId", GString userID)]);
     pe_CheckPrevious := true;
     pe_EditorService := ctxEditorService ctx; pe_EditorUser := ctxEditorUser ctx |}.

Definition AggregateFromReadModel (rm : ReadModel) : Aggregate :=
  mkAggregate (rm_AggregateID rm) AggregateType [] "" "v1" (rm_ProcessedSequence rm).

Definition PushEvents (a : Aggregate) (events : list PushEvent) : Aggregate :=
  mkAggregate (agg_ID a) (agg_Type a) (agg_Events a ++ events) (agg_ResourceOwner a)
    (agg_Version a) (agg_PreviousSequence a).

Definition PushMemberAdded (a : Aggregate) (ctx : Context) (userID : string) (roles : list string) :=
  PushEvents a [NewMemberAddedEvent ctx userID roles].

(* ------------------------------------------------------------------ *)
(** ** [business/iam]: the repository and the member commands *)

Record Repository := mkRepository {
  eventstore : Eventstore
}.

(** [Eventstore.FilterToQueryReducer]: the model supplies its own query. *)
Definition FilterToQueryReducer {R} (es : Eventstore) (query : R -> SearchQueryFactory)
    (red : reducer R) (r : R) : ES R :=
  FilterToReducer es (Some (query r)) red r.

Definition PreconditionFailedErr (id msg : string) := mkCaosError PreconditionFailed id msg.

Section Commands.
Variable json_decode : string -> option json.
(** [iam_model.IAMMember.IsValid] (not in the sources). *)
Variable IsValid : iam_model.IAMMember -> bool.
(** [readModelToMember] (not in the sources); [None] stands for a panic of
    the conversion (it dereferences its argument, which may be nil). *)
Variable readModelToMember : option MemberReadModel -> option iam_model.IAMMember.

(** [Repository.iamByID] (repository.go). *)
Definition iamByID (r : Repository) (id : string) : ES ReadModel :=
  let readModel := NewReadModel id in
  FilterToQueryReducer (eventstore r) ReadModel_Query ReadModelReducer readModel.

(** [Repository.AddIAMMember] (member.go, lines 14-46).  The member is a
    pointer: [member.IsValid()] on nil panics. *)
Definition AddIAMMember (ctx : Context) (r : Repository) (member : option iam_model.IAMMember)
    : ES (option iam_model.IAMMember) :=
  match member with
  | None => liftO Panic
  | Some m =>
      if negb (IsValid m)
      then liftO (Err (PreconditionFailedErr "IAM-W8m4l" "Errors.IAM.MemberInvalid"))
      else
        let! iam := iamByID r (iam_model.AggregateID m) in
        let '(idx, _) := MemberByUserID (rm_Members iam) (iam_model.UserID m) in
        if Z.ltb (-1) idx
        then liftO (Err (PreconditionFailedErr "IAM-GPhuz" "Errors.IAM.MemberAlreadyExisting"))
        else
          let iamAgg := PushMemberAdded (AggregateFromReadModel iam) ctx
                          (iam_model.UserID m) (iam_model.Roles m) in
          let! events := PushAggregates json_decode (eventstore r) [iamAgg] in
          let! iam := liftO (AppendAndReduce iam events) in
          let '(_, addedMember) := MemberByUserID (rm_Members iam) (iam_model.UserID m) in
          match member with
          | None => liftO (Err (mkCaosError Internal "IAM-nuoDN" "member not saved"))
          | Some _ =>
              match readModelToMember addedMember with
              | Some res => retES (Some res)
              | None => liftO Panic
              end
          end
  end.

(** [Repository.RemoveIAMMember] (member.go, lines 76-96). *)
Definition RemoveIAMMember (ctx : Context) (r : Repository) (member : option iam_model.IAMMember)
    : ES unit :=
  match member with
  | None => liftO Panic
  | Some m =>
      let! iam := iamByID r (iam_model.AggregateID m) in
      let '(i, _) := MemberByUserID (rm_Members iam) (iam_model.UserID m) in
      if Z.eqb i (-1) then retES tt
      else
        let iamAgg := PushEvents (AggregateFromReadModel iam)
                        [NewMemberRemovedEvent ctx (iam_model.UserID m)] in
        let! events := PushAggregates json_decode (eventstore r) [iamAgg] in
        let! _ := liftO (AppendAndReduce iam events) in
        retES tt
  end.

End Commands.

(** The query [MemberByID] builds (member.go, lines 102-106). *)
Definition memberByIDQuery (iamID userID : string) : SearchQueryFactory :=
  EventData
    (AggregateIDs (NewSearchQueryFactory repository.ColumnsEvent [AggregateType]) [iamID])
    [("userId", JStr userID)].

(** [Repository.MemberByID] (member.go, lines 98-115). *)
Definition MemberByID (r : Repository) (iamID userID : string) : ES MemberQueryModel :=
  let query := memberByIDQuery iamID userID in
  let member := newMemberQueryModel in
  FilterToReducer (eventstore r) (Some query) MemberQueryReducer member.

(* ------------------------------------------------------------------ *)
(** ** IDP OIDC configuration write model (iam package) *)

(** Modelled from the spec: [oidc.ConfigWriteModel] (not in the sources);
    its [AppendEvents] keeps the events for the later [Reduce]. *)
Record ConfigWriteModel := mkConfigWriteModel {
  cwm_Events : list EventReader
}.

Definition ConfigWriteModel_AppendEvents (wm : ConfigWriteModel) (events : list EventReader)
    : ConfigWriteModel :=
  mkConfigWriteModel (cwm_Events wm ++ events).

Record IDPOIDCConfigWriteModel := mkIDPOIDCConfigWriteModel {
  wm_ConfigWriteModel : ConfigWriteModel;
  iamID : string;
  idpConfigID : string
}.

Definition NewIDPOIDCConfigWriteModel (iamID idpConfigID : string) : IDPOIDCConfigWriteModel :=
  mkIDPOIDCConfigWriteModel (mkConfigWriteModel []) iamID idpConfigID.

Definition forwardToConfig (wm : IDPOIDCConfigWriteModel) (events : list EventReader)
    : IDPOIDCConfigWriteModel :=
  mkIDPOIDCConfigWriteModel (ConfigWriteModel_AppendEvents (wm_ConfigWriteModel wm) events)
    (iamID wm) (idpConfigID wm).

(** [IDPOIDCConfigWriteModel.AppendEvents] (idp_oidc_config.go, lines
    36-53). *)
Definition IDPOIDCConfigWriteModel_AppendEvents (wm : IDPOIDCConfigWriteModel)
    (events : list EventReader) : IDPOIDCConfigWriteModel :=
  fold_left (fun wm event =>
      match event with
      | IDPOIDCConfigAddedEvent e =>
          if negb (String.eqb (idpConfigID wm) (ca_IDPConfigID e)) then wm
          else forwardToConfig wm [OIDCConfigAddedEvent e]
      | IDPOIDCConfigChangedEvent e =>
          if negb (String.eqb (idpConfigID wm) (cc_IDPConfigID e)) then wm
          else forwardToConfig wm [OIDCConfigChangedEvent e]
      | e => forwardToConfig wm [e]
      end) events wm.

Definition iamQuery (id : string) : repository.SearchQuery :=
  repository.mkSearchQuery repository.ColumnsEvent [AggregateType] [id] [] [].

(** What [return readModelToMember(addedMember), nil] yields. *)
Definition returnMember (converted : option iam_model.IAMMember) : outcome (option iam_model.IAMMember) :=
  match converted with
  | Some res => Ok (Some res)
  | None => Panic
  end.

(* ------------------------------------------------------------------ *)
(** ** Example data (scenario S1 of the design notes) *)

Definition exampleEventstore : Eventstore := RegisterMemberMappers (mkEventstore ∅).
Definition exampleRepository : Repository := mkRepository exampleEventstore.
Definition exampleContext : Context := mkContext "editorService" "editorUser".

(** An instance of [IsValid]: aggregate, user and at least one role. *)
Definition exampleIsValid (m : iam_model.IAMMember) : bool :=
  negb (String.eqb (iam_model.AggregateID m) "") && negb (String.eqb (iam_model.UserID m) "") &&
  negb (Nat.eqb (List.length (iam_model.Roles m)) 0).

(** An instance of [readModelToMember] that panics on nil. *)
Definition exampleReadModelToMember (o : option MemberReadModel) : option iam_model.IAMMember :=
  match o with
  | Some mr => Some (iam_model.mkIAMMember "" (mr_UserID mr) (mr_Roles mr))
  | None => None
  end.

Definition storedMemberEvent (typ : string) (seq : nat) (iamID userID : string)
    (roles : list string) : repository.Event :=
  {| repository.AggregateID := iamID; repository.AggregateType := AggregateType;
     repository.Version := "v1"; repository.Type_ := typ;
     repository.Sequence := seq; repository.PreviousSequence := 0;
     repository.CheckPreviousSequence := true; repository.ResourceOwner := "";
     repository.EditorService := "editorService"; repository.EditorUser := "editorUser";
     repository.Data := Some (JObj [("userId", JStr userID); ("roles", JArr (map JStr roles))]);
     repository.PreviousEvent := None |}.

(** S1: the log holds [iam.member.added{iam-1, u1, [A]}] at sequence 1. *)
Definition storeS1 : Store :=
  mkStore [storedMemberEvent MemberAddedEventType 1 "iam-1" "u1" ["A"]] [].

(** The IAM read model loaded from S1 and the store after loading. *)
Definition iamS1 : ReadModel := mkReadModel "iam-1" 1 [] [mkMemberReadModel "u1" ["A"]].
Definition storeS1Loaded : Store := mkStore (log storeS1) [CallFilter (iamQuery "iam-1")].

(** S1 followed by [AddMember(iam-1, u2, [A])]: the push and the re-fold. *)
Definition pushS1u2 : outcome (list EventReader) * Store :=
  PushAggregates no_json_decode exampleEventstore
    [PushMemberAdded (AggregateFromReadModel iamS1) exampleContext "u2" ["A"]] storeS1Loaded.
Definition eventsS2 : list EventReader :=
  match fst pushS1u2 with Ok evs => evs | _ => [] end.
Definition storeS2 : Store := snd pushS1u2.
Definition iamS2 : ReadModel :=
  match AppendAndReduce iamS1 eventsS2 with Ok rm => rm | _ => iamS1 end.

(* ------------------------------------------------------------------ *)
(** ** Helpers of the statements *)

(** What a read leaves in the store: the log as it was, and one filter
    call when the query builds, no call otherwise. *)
Definition read_effect (q : option SearchQueryFactory) (st st' : Store) : Prop :=
  log st' = log st /\
  match build q with
  | Ok sq => calls st' = calls st ++ [CallFilter sq]
  | _ => st' = st
  end.

Definition has_member (ms : list MemberReadModel) (userID : string) : Prop :=
  exists m, In m ms /\ mr_UserID m = userID.

(** The events the inner [ConfigWriteModel] receives for one event given
    to [IDPOIDCConfigWriteModel.AppendEvents], by the three cases of its
    type switch: the embedded event of a matching [IDPOIDCConfigAddedEvent]
    or [IDPOIDCConfigChangedEvent], nothing for a non-matching one, the
    event itself otherwise. *)
Definition forwarded (idpConfigID : string) (ev : EventReader) : list EventReader :=
  match ev with
  | IDPOIDCConfigAddedEvent e =>
      if String.eqb (ca_IDPConfigID e) idpConfigID then [OIDCConfigAddedEvent e] else []
  | IDPOIDCConfigChangedEvent e =>
      if String.eqb (cc_IDPConfigID e) idpConfigID then [OIDCConfigChangedEvent e] else []
  | _ => [ev]
  end.

(** A stored event of a type no mapper is registered for. *)
Definition unregisteredEvent : repository.Event :=
  storedMemberEvent "x.unregistered" 2 "iam-1" "u1" [].

(** A mapper as the registry test uses one, and an eventstore that
    already has it for ["event.type"]. *)
Definition testMapper : EventMapperFunc :=
  fun e => Ok (OtherEvent (mkBaseEvent (repository.AggregateID e) (repository.Sequence e)
                                      (repository.Type_ e))).

Definition registeredEventstore : Eventstore :=
  RegisterFilterEventMapper (mkEventstore ∅) "event.type" (Some testMapper).

(** The query [MemberByID] builds, written out. *)
Definition memberByIDSearchQuery (iamID userID : string) : repository.SearchQuery :=
  repository.mkSearchQuery repository.ColumnsEvent [AggregateType] [iamID] []
    [("userId", JStr userID)].

(** An OIDC configuration event of the IDP [id]. *)
Definition oidcAdded (id : string) : ConfigAddedEvent :=
  mkConfigAddedEvent (mkBaseEvent "iam-1" 1 "iam.idp.oidc.config.added") id "client" "issuer".

(** The batch the model builds for the test case "multiple aggregates". *)
Definition multipleAggregatesBatch : list (Ptr * repository.Event) :=
  Eval vm_compute in
    match aggregatesToEvents no_json_decode multipleAggregates with Ok l => l | _ => [] end.

(* ------------------------------------------------------------------ *)
(** ** Policy read models of the iam package *)

(** [policy.LabelPolicyAddedEvent] and [policy.LabelPolicyChangedEvent]
    (not in the sources): a base event and the two colours the iam
    package's (commented out) constructors pass on. *)
Record LabelPolicyAdded := mkLabelPolicyAdded {
  lpa_Base : BaseEvent;
  lpa_PrimaryColor : string;
  lpa_SecondaryColor : string
}.

Record LabelPolicyChanged := mkLabelPolicyChanged {
  lpc_Base : BaseEvent;
  lpc_PrimaryColor : string;
  lpc_SecondaryColor : string
}.

(** [policy.PasswordLockoutPolicyAddedEvent] and
    [policy.PasswordLockoutPolicyChangedEvent] (not in the sources; their
    payload is not read by the code here). *)
Record PasswordLockoutPolicyAdded := mkPasswordLockoutPolicyAdded {
  plpa_Base : BaseEvent
}.

Record PasswordLockoutPolicyChanged := mkPasswordLockoutPolicyChanged {
  plpc_Base : BaseEvent
}.

(** The events a policy read model is given: the iam wrappers (which embed
    the policy event), the policy events themselves, and any other event. *)
Inductive PolicyEventReader :=
| iam_LabelPolicyAddedEvent (e : LabelPolicyAdded)                         (* *iam.LabelPolicyAddedEvent *)
| iam_LabelPolicyChangedEvent (e : LabelPolicyChanged)                     (* *iam.LabelPolicyChangedEvent *)
| policy_LabelPolicyAddedEvent (e : LabelPolicyAdded)                      (* *policy.LabelPolicyAddedEvent *)
| policy_LabelPolicyChangedEvent (e : LabelPolicyChanged)                  (* *policy.LabelPolicyChangedEvent *)
| iam_PasswordLockoutPolicyAddedEvent (e : PasswordLockoutPolicyAdded)     (* *iam.PasswordLockoutPolicyAddedEvent *)
| iam_PasswordLockoutPolicyChangedEvent (e : PasswordLockoutPolicyChanged) (* *iam.PasswordLockoutPolicyChangedEvent *)
| policy_PasswordLockoutPolicyAddedEvent (e : PasswordLockoutPolicyAdded)  (* *policy.PasswordLockoutPolicyAddedEvent *)
| policy_PasswordLockoutPolicyChangedEvent (e : PasswordLockoutPolicyChanged)
| OtherPolicyEvent (b : BaseEvent).

(** Modelled from the spec: the generic [eventstore.ReadModel] embedded in
    the policy read models (not in the sources); its [AppendEvents] keeps
    the events for the later [Reduce]. *)
Record PolicyReadModel := mkPolicyReadModel {
  prm_Events : list PolicyEventReader
}.

Definition PolicyReadModel_AppendEvents (rm : PolicyReadModel) (events : list PolicyEventReader)
    : PolicyReadModel :=
  mkPolicyReadModel (prm_Events rm ++ events).

(** [iam.LabelPolicyReadModel]: it embeds [policy.LabelPolicyReadModel],
    whose [ReadModel] receives the events. *)
Record LabelPolicyReadModel := mkLabelPolicyReadModel {
  lp_ReadModel : PolicyReadModel
}.

(** [LabelPolicyReadModel.AppendEvents] (src/unnamed/part_000, lines
    15-27).  The type switch has no default branch; it returns nil. *)
Definition LabelPolicyReadModel_AppendEvents (rm : LabelPolicyReadModel)
    (events : list PolicyEventReader) : outcome LabelPolicyReadModel :=
  Ok (fold_left (fun rm event =>
        match event with
        | iam_LabelPolicyAddedEvent e =>
            mkLabelPolicyReadModel
              (PolicyReadModel_AppendEvents (lp_ReadModel rm) [policy_LabelPolicyAddedEvent e])
        | iam_LabelPolicyChangedEvent e =>
            mkLabelPolicyReadModel
              (PolicyReadModel_AppendEvents (lp_ReadModel rm) [policy_LabelPolicyChangedEvent e])
        | policy_LabelPolicyAddedEvent _ | policy_LabelPolicyChangedEvent _ =>
            mkLabelPolicyReadModel (PolicyReadModel_AppendEvents (lp_ReadModel rm) [event])
        | _ => rm
        end) events rm).

(** [iam.PasswordLockoutPolicyReadModel]: it embeds
    [policy.PasswordLockoutPolicyReadModel], whose [ReadModel] receives the
    events. *)
Record PasswordLockoutPolicyReadModel := mkPasswordLockoutPolicyReadModel {
  plp_ReadModel : PolicyReadModel
}.

(** [PasswordLockoutPolicyReadModel.AppendEvents] (repository.go, lines
    64-76).  No default branch either; it returns nil. *)
Definition PasswordLockoutPolicyReadModel_AppendEvents (rm : PasswordLockoutPolicyReadModel)
    (events : list PolicyEventReader) : outcome PasswordLockoutPolicyReadModel :=
  Ok (fold_left (fun rm event =>
        match event with
        | iam_PasswordLockoutPolicyAddedEvent e =>
            mkPasswordLockoutPolicyReadModel
              (PolicyReadModel_AppendEvents (plp_ReadModel rm)
                 [policy_PasswordLockoutPolicyAddedEvent e])
        | iam_PasswordLockoutPolicyChangedEvent e =>
            mkPasswordLockoutPolicyReadModel
              (PolicyReadModel_AppendEvents (plp_ReadModel rm)
                 [policy_PasswordLockoutPolicyChangedEvent e])
        | policy_PasswordLockoutPolicyAddedEvent _ | policy_PasswordLockoutPolicyChangedEvent _ =>
            mkPasswordLockoutPolicyReadModel (PolicyReadModel_AppendEvents (plp_ReadModel rm) [event])
        | _ => rm
        end) events rm).

(** What each policy read model keeps of one event, by the cases of its
    switch: the embedded policy event of an iam wrapper, a policy event of
    its own kind as it is, nothing else. *)
Definition label_kept (ev : PolicyEventReader) : list PolicyEventReader :=
  match ev with
  | iam_LabelPolicyAddedEvent e => [policy_LabelPolicyAddedEvent e]
  | iam_LabelPolicyChangedEvent e => [policy_LabelPolicyChangedEvent e]
  | policy_LabelPolicyAddedEvent _ | policy_LabelPolicyChangedEvent _ => [ev]
  | _ => []
  end.

Definition lockout_kept (ev : PolicyEventReader) : list PolicyEventReader :=
  match ev with
  | iam_PasswordLockoutPolicyAddedEvent e => [policy_PasswordLockoutPolicyAddedEvent e]
  | iam_PasswordLockoutPolicyChangedEvent e => [policy_PasswordLockoutPolicyChangedEvent e]
  | policy_PasswordLockoutPolicyAddedEvent _ | policy_PasswordLockoutPolicyChangedEvent _ => [ev]
  | _ => []
  end.

(* ------------------------------------------------------------------ *)
(** ** The IAM view ([v2/view/iam.go]) *)

Module view.

Section View.
(** [iam.Step] (not in the sources). *)
Variable Step : Type.

(** The events [IAM.Reduce] reads: [*iam.ProjectSetEvent],
    [*iam.GlobalOrgSetEvent], [*iam.SetupStepEvent], and any other event. *)
Inductive Event :=
| ProjectSetEvent (b : BaseEvent) (ProjectID : string)
| GlobalOrgSetEvent (b : BaseEvent) (OrgID : string)
| SetupStepEvent (b : BaseEvent) (step : Step) (Done : bool)
| OtherEvent (b : BaseEvent).

(** Modelled from the spec: the embedded [eventstore.ReadModel] (not in the
    sources), with the events appended and not yet reduced. *)
Record ReadModel := mkReadModel {
  Events : list Event
}.

Definition ReadModel_AppendEvents (rm : ReadModel) (events : list Event) : ReadModel :=
  mkReadModel (Events rm ++ events).

(** [eventstore.ReadModel.Reduce] (not in the sources). *)
Variable ReadModel_Reduce : ReadModel -> outcome ReadModel.

(** [view.IAM]. *)
Record IAM := mkIAM {
  iam_ReadModel : ReadModel;
  SetUpStarted : Step;
  SetUpDone : Step;
  GlobalOrgID : string;
  ProjectID : string
}.

(** [IAM.AppendEvents] (view/iam.go, lines 20-23): the named error result
    is never set. *)
Definition IAM_AppendEvents (rm : IAM) (events : list Event) : outcome IAM :=
  Ok (mkIAM (ReadModel_AppendEvents (iam_ReadModel rm) events)
        (SetUpStarted rm) (SetUpDone rm) (GlobalOrgID rm) (ProjectID rm)).

Definition reduceEvent (rm : IAM) (event : Event) : IAM :=
  match event with
  | ProjectSetEvent _ p =>
      mkIAM (iam_ReadModel rm) (SetUpStarted rm) (SetUpDone rm) (GlobalOrgID rm) p
  | GlobalOrgSetEvent _ o =>
      mkIAM (iam_ReadModel rm) (SetUpStarted rm) (SetUpDone rm) o (ProjectID rm)
  | SetupStepEvent _ s d =>
      if d then mkIAM (iam_ReadModel rm) (SetUpStarted rm) s (GlobalOrgID rm) (ProjectID rm)
      else mkIAM (iam_ReadModel rm) s (SetUpDone rm) (GlobalOrgID rm) (ProjectID rm)
  | OtherEvent _ => rm
  end.

(** [IAM.Reduce] (view/iam.go, lines 27-43): the switch over [rm.Events],
    then the embedded read model's [Reduce]. *)
Definition IAM_Reduce (rm : IAM) : outcome IAM :=
  let rm1 := fold_left reduceEvent (Events (iam_ReadModel rm)) rm in
  let? base := ReadModel_Reduce (iam_ReadModel rm1) in
  Ok (mkIAM base (SetUpStarted rm1) (SetUpDone rm1) (GlobalOrgID rm1) (ProjectID rm1)).

End View.

Arguments ProjectSetEvent {Step} b ProjectID.
Arguments GlobalOrgSetEvent {Step} b OrgID.
Arguments SetupStepEvent {Step} b step Done.
Arguments OtherEvent {Step} b.
Arguments mkReadModel {Step} Events.
Arguments Events {Step} r.
Arguments mkIAM {Step} iam_ReadModel SetUpStarted SetUpDone GlobalOrgID ProjectID.
Arguments iam_ReadModel {Step} i.
Arguments SetUpStarted {Step} i.
Arguments SetUpDone {Step} i.
Arguments GlobalOrgID {Step} i.
Arguments ProjectID {Step} i.
Arguments ReadModel_AppendEvents {Step} rm events.
Arguments IAM_AppendEvents {Step} rm events.
Arguments reduceEvent {Step} rm event.
Arguments IAM_Reduce {Step} ReadModel_Reduce rm.

End view.

(* ------------------------------------------------------------------ *)
(** ** More of the IDP OIDC configuration (idp_oidc_config.go) *)

Definition IDPOIDCConfigAddedEventType : string := "iam.idp.oidc.config.added".
Definition IDPOIDCConfigChangedEventType : string := "iam.idp.oidc.config.changed".

(** [IDPOIDCConfigWriteModel.Query] (lines 31-34). *)
Definition IDPOIDCConfigWriteModel_Query (wm : IDPOIDCConfigWriteModel) : SearchQueryFactory :=
  AggregateIDs (NewSearchQueryFactory repository.ColumnsEvent [AggregateType]) [iamID wm].

Section OIDCMappers.
(** [oidc.ConfigAddedEventMapper] and [oidc.ConfigChangedEventMapper] (not
    in the sources). *)
Variable oidc_ConfigAddedEventMapper : repository.Event -> outcome ConfigAddedEvent.
Variable oidc_ConfigChangedEventMapper : repository.Event -> outcome ConfigChangedEvent.

(** [IDPOIDCConfigAddedEventMapper] (lines 87-94). *)
Definition IDPOIDCConfigAddedEventMapper (event : repository.Event) : outcome EventReader :=
  let? e := oidc_ConfigAddedEventMapper event in
  Ok (IDPOIDCConfigAddedEvent e).

(** [IDPOIDCConfigChangedEventMapper] (lines 134-141). *)
Definition IDPOIDCConfigChangedEventMapper (event : repository.Event) : outcome EventReader :=
  let? e := oidc_ConfigChangedEventMapper event in
  Ok (IDPOIDCConfigChangedEvent e).

End OIDCMappers.

(* ------------------------------------------------------------------ *)
(** ** [Repository.ChangeIAMMember] (member.go, lines 50-74) *)

Section Change.
Variable json_decode : string -> option json.
Variable IsValid : iam_model.IAMMember -> bool.
Variable readModelToMember : option MemberReadModel -> option iam_model.IAMMember.
(** [iam_repo.MemberWriteModel] and the functions of [ChangeIAMMember] that
    are not in the sources: [Repository.memberWriteModelByID],
    [iam_repo.AggregateFromWriteModel] and
    [Aggregate.PushMemberChangedFromExisting]. *)
Variable MemberWriteModel : Type.
Variable memberWriteModelByID : Repository -> string -> string -> ES MemberWriteModel.
Variable AggregateFromWriteModel : MemberWriteModel -> Aggregate.
Variable PushMemberChangedFromExisting :
  Aggregate -> Context -> MemberWriteModel -> list string -> Aggregate.

(** [&updatedMember.ReadModel]: the member part of the queried model, a
    pointer to a field, never nil. *)
Definition memberOfQueryModel (mm : MemberQueryModel) : option MemberReadModel :=
  Some (mkMemberReadModel (mq_UserID mm) (mq_Roles mm)).

Definition ChangeIAMMember (ctx : Context) (r : Repository) (member : option iam_model.IAMMember)
    : ES (option iam_model.IAMMember) :=
  match member with
  | None => liftO Panic
  | Some m =>
      if negb (IsValid m)
      then liftO (Err (PreconditionFailedErr "IAM-LiaZi" "Errors.IAM.MemberInvalid"))
      else
        let! existingMember := memberWriteModelByID r (iam_model.AggregateID m) (iam_model.UserID m) in
        let iam := PushMemberChangedFromExisting (AggregateFromWriteModel existingMember) ctx
                     existingMember (iam_model.Roles m) in
        let! _ := PushAggregates json_decode (eventstore r) [iam] in
        let! updatedMember := MemberByID r (iam_model.AggregateID m) (iam_model.UserID m) in
        match readModelToMember (memberOfQueryModel updatedMember) with
        | Some res => retES (Some res)
        | None => liftO Panic
        end
  end.

End Change.

(* ------------------------------------------------------------------ *)
(** ** Example data of the IAM view *)

Definition viewBase : BaseEvent := mkBaseEvent "iam-1" 1 "iam.setup".

(** A read model [Reduce] that clears the pending events. *)
Definition exampleViewReadModelReduce (rm : view.ReadModel nat) : outcome (view.ReadModel nat) :=
  Ok (view.mkReadModel []).

Definition exampleViewIAM : view.IAM nat :=
  view.mkIAM (view.mkReadModel
    [view.ProjectSetEvent viewBase "p1"; view.SetupStepEvent viewBase 1 false;
     view.GlobalOrgSetEvent viewBase "o1"; view.SetupStepEvent viewBase 1 true;
     view.ProjectSetEvent viewBase "p2"; view.SetupStepEvent viewBase 2 false])
    0 0 "" "".

Definition exampleViewIAMReduced : view.IAM nat :=
  view.mkIAM (view.mkReadModel []) 2 1 "o1" "p2".

(* ------------------------------------------------------------------ *)
(** ** Example data of the IDP OIDC mappers *)

(** An [oidc.ConfigAddedEventMapper] that decodes every event as the
    configuration of [idp-1], and one that rejects every event. *)
Definition exampleOIDCAddedMapper (e : repository.Event) : outcome ConfigAddedEvent :=
  Ok (oidcAdded "idp-1").

Definition exampleOIDCChangedMapper (e : repository.Event) : outcome ConfigChangedEvent :=
  Err (mkCaosError InvalidArgument "OIDC-plaBZ" "unable to unmarshal event").

Definition oidcEventstore : Eventstore :=
  RegisterFilterEventMapper
    (RegisterFilterEventMapper (mkEventstore ∅) IDPOIDCConfigAddedEventType
       (Some (IDPOIDCConfigAddedEventMapper exampleOIDCAddedMapper)))
    IDPOIDCConfigChangedEventType (Some (IDPOIDCConfigChangedEventMapper exampleOIDCChangedMapper)).

Definition storedOIDCEvent (typ : string) : repository.Event :=
  {| repository.AggregateID := "iam-1"; repository.AggregateType := AggregateType;
     repository.Version := "v1"; repository.Type_ := typ;
     repository.Sequence := 3; repository.PreviousSequence := 2;
     repository.CheckPreviousSequence := true; repository.ResourceOwner := "";
     repository.EditorService := "editorService"; repository.EditorUser := "editorUser";
     repository.Data := Some (JObj [("idpConfigId", JStr "idp-1")]);
     repository.PreviousEvent := None |}.

(* ------------------------------------------------------------------ *)
(** ** Example instances of the functions [ChangeIAMMember] calls *)

(** A member write model: the loaded IAM and the user. *)
Record exampleMemberWriteModel := mkExampleMemberWriteModel {
  emw_IAM : ReadModel;
  emw_UserID : string
}.

Definition exampleMemberWriteModelByID (r : Repository) (iamID userID : string)
    : ES exampleMemberWriteModel :=
  let! iam := iamByID r iamID in
  retES (mkExampleMemberWriteModel iam userID).

Definition exampleAggregateFromWriteModel (wm : exampleMemberWriteModel) : Aggregate :=
  AggregateFromReadModel (emw_IAM wm).

(** Push an [iam.member.changed] event with the user and the new roles. *)
Definition examplePushMemberChangedFromExisting (a : Aggregate) (ctx : Context)
    (wm : exampleMemberWriteModel) (roles : list string) : Aggregate :=
  PushEvents a
    [{| pe_Type := MemberChangedEventType;
        pe_Data := GPtr (GStruct [("userId", GString (emw_UserID wm));
                                  ("roles", GSlice (map GString roles))]);
        pe_CheckPrevious := true;
        pe_EditorService := ctxEditorService ctx; pe_EditorUser := ctxEditorUser ctx |}].

(* ================================================================== *)
(** * Proofs *)

(* ------------------------------------------------------------------ *)
(** ** Linking of a pushed batch *)

Lemma bindO_Ok {A B} (m : outcome A) (f : A -> outcome B) (b : B) :
  bindO m f = Ok b -> exists a, m = Ok a /\ f a = Ok b.
Proof. destruct m; simpl; intros H; [eauto | discriminate | discriminate]. Qed.

Ltac invert_binds :=
  repeat match goal with
  | H : bindO _ _ = Ok _ |- _ =>
      let a := fresh "r" in let Ha := fresh "Hr" in let Hf := fresh "Hf" in
      apply bindO_Ok in H; destruct H as (a & Ha & Hf)
  | H : Ok _ = Ok _ |- _ => injection H as H; subst
  end.

Lemma aggregateEvents_linked dec a (evs : list PushEvent) :
  forall prev next l, aggregateEvents dec a prev next evs = Ok l ->
  chained prev l /\ List.length l = List.length evs /\
  Forall (fun pe => repository.AggregateID (snd pe) = agg_ID a) l.
Proof.
  induction evs as [|ev rest IH]; intros prev next l H; simpl in H.
  - injection H as <-. simpl. auto.
  - invert_binds. destruct (IH _ _ _ Hr0) as (Hc & Hl & Hid).
    simpl. repeat split; auto; constructor; auto.
Qed.

Lemma aggregatesToEvents_from_groups dec (aggs : list Aggregate) :
  forall next evs, aggregatesToEvents_from dec next aggs = Ok evs ->
  exists groups, evs = concat groups /\
    Forall2 (fun a g =>
      List.length g = List.length (agg_Events a) /\
      Forall (fun pe => repository.AggregateID (snd pe) = agg_ID a) g /\
      chained None g) aggs groups.
Proof.
  induction aggs as [|a rest IH]; intros next evs H; simpl in H.
  - injection H as <-. exists []. split; [reflexivity | constructor].
  - invert_binds. destruct (IH _ _ Hr0) as (groups & -> & Hgs).
    destruct (aggregateEvents_linked _ _ _ _ _ _ Hr) as (Hc & Hl & Hid).
    exists (r :: groups). split; [reflexivity|]. constructor; auto.
Qed.

Lemma compareEvents_linked (want got : repository.Event) :
  compareEvents want got = true -> is_linked want = is_linked got.
Proof.
  unfold compareEvents. rewrite !andb_true_iff. intros H.
  apply Bool.eqb_prop. tauto.
Qed.

(** Any result that passes the test case "multiple aggregates" leaves the
    first event of the second aggregate unlinked. *)
Lemma multipleAggregates_test_forces_unlinked (got : list (Ptr * repository.Event)) :
  aggregatesToEvents_test_passes multipleAggregatesExpected (Ok got) = true ->
  exists p e, nth_error got 2 = Some (p, e) /\ repository.PreviousEvent e = None.
Proof.
  unfold aggregatesToEvents_test_passes.
  destruct got as [|x0 [|x1 [|[p e] [|x3 rest]]]]; simpl; try discriminate.
  rewrite !andb_true_iff. intros (_ & _ & H & _).
  apply compareEvents_linked in H. unfold is_linked in H. simpl in H.
  exists p, e. split; [reflexivity|].
  destruct (repository.PreviousEvent e); [discriminate | reflexivity].
Qed.

(** The model of [aggregatesToEvents] passes that test case; the linking
    the design notes describe does not. *)
Lemma aggregatesToEvents_passes_multipleAggregates :
  aggregatesToEvents_test_passes multipleAggregatesExpected
    (aggregatesToEvents no_json_decode multipleAggregates) = true.
Proof. vm_compute. reflexivity. Qed.

Lemma aggregatesToEvents_spec_fails_multipleAggregates :
  aggregatesToEvents_test_passes multipleAggregatesExpected
    (aggregatesToEvents_spec no_json_decode multipleAggregates) = false.
Proof. vm_compute. reflexivity. Qed.

(* ------------------------------------------------------------------ *)
(** ** Effects of the read operations on the store *)


Lemma FilterEvents_state es (q : option SearchQueryFactory) (st st' : Store) res :
  FilterEvents es q st = (res, st') -> read_effect q st st'.
Proof.
  unfold FilterEvents, bindES, liftO, repoFilter, read_effect.
  destruct (build q) as [sq| e |]; intros H; injection H as <- <-; auto.
Qed.

Lemma FilterToReducer_state {R} es (q : option SearchQueryFactory) (red : reducer R) (r : R)
    (st st' : Store) res :
  FilterToReducer es q red r st = (res, st') -> read_effect q st st'.
Proof.
  unfold FilterToReducer, bindES at 1.
  destruct (FilterEvents es q st) as [[evs| e |] st1] eqn:HF; intros H;
    apply FilterEvents_state in HF.
  - unfold bindES, liftO in H.
    destruct (AppendEvents red r evs); injection H as <- <-; exact HF.
  - injection H as <- <-. exact HF.
  - injection H as <- <-. exact HF.
Qed.

Lemma iamByID_state (r : Repository) (id : string) (st st' : Store) res :
  iamByID r id st = (res, st') ->
  log st' = log st /\ calls st' = calls st ++ [CallFilter (iamQuery id)].
Proof.
  unfold iamByID, FilterToQueryReducer. intros H.
  apply FilterToReducer_state in H as [Hl Hc]. split; assumption.
Qed.

(* ------------------------------------------------------------------ *)
(** ** Member lookup *)


Lemma MemberByUserID_from_found (ms : list MemberReadModel) (u : string) :
  forall i, has_member ms u -> (i <= fst (MemberByUserID_from i ms u))%Z.
Proof.
  induction ms as [|m rest IH]; intros i (x & Hin & Hx); simpl in *.
  - contradiction.
  - destruct (String.eqb (mr_UserID m) u) eqn:E; simpl; [lia|].
    destruct Hin as [<- | Hin].
    + apply String.eqb_neq in E. contradiction.
    + specialize (IH (i + 1)%Z (ex_intro _ x (conj Hin Hx))). lia.
Qed.

Lemma MemberByUserID_from_absent (ms : list MemberReadModel) (u : string) :
  forall i, ~ has_member ms u -> MemberByUserID_from i ms u = ((-1)%Z, None).
Proof.
  induction ms as [|m rest IH]; intros i Hn; simpl; [reflexivity|].
  destruct (String.eqb (mr_UserID m) u) eqn:E.
  - apply String.eqb_eq in E. exfalso. apply Hn. exists m. simpl. auto.
  - apply IH. intros (x & Hin & Hx). apply Hn. exists x. simpl. auto.
Qed.

Lemma MemberByUserID_found (ms : list MemberReadModel) (u : string) :
  has_member ms u -> Z.ltb (-1) (fst (MemberByUserID ms u)) = true.
Proof.
  intros H. apply (MemberByUserID_from_found ms u 0%Z) in H.
  unfold MemberByUserID. apply Z.ltb_lt. lia.
Qed.

(* ================================================================== *)
(** * The claims *)

(** C2: when the loaded IAM read model already has a member with the
    user id of the member to add, [AddIAMMember] fails with the
    [PreconditionFailed] error [IAM-GPhuz] and never calls the store's
    push: the event log is unchanged and the only port call is the load's
    filter. *)
Theorem AddIAMMember_duplicate_rejected json_decode IsValid readModelToMember
    (ctx : Context) (r : Repository) (m : iam_model.IAMMember) (st st1 : Store)
    (iam : ReadModel) :
  IsValid m = true ->
  iamByID r (iam_model.AggregateID m) st = (Ok iam, st1) ->
  has_member (rm_Members iam) (iam_model.UserID m) ->
  AddIAMMember json_decode IsValid readModelToMember ctx r (Some m) st =
    (Err (mkCaosError PreconditionFailed "IAM-GPhuz" "Errors.IAM.MemberAlreadyExisting"), st1) /\
  log st1 = log st /\
  calls st1 = calls st ++ [CallFilter (iamQuery (iam_model.AggregateID m))].
Proof.
  intros HV Hload Hmem.
  pose proof (iamByID_state _ _ _ _ _ Hload) as [Hl Hc].
  split; [|split; assumption].
  unfold AddIAMMember. rewrite HV. cbn [negb].
  unfold bindES at 1. rewrite Hload.
  pose proof (MemberByUserID_found _ _ Hmem) as Hf.
  destruct (MemberByUserID (rm_Members iam) (iam_model.UserID m)) as [idx am].
  simpl in Hf. rewrite Hf. reflexivity.
Qed.

Lemma AddIAMMember_duplicate_rejected_witness :
  exampleIsValid (iam_model.mkIAMMember "iam-1" "u1" ["B"]) = true /\
  iamByID exampleRepository "iam-1" storeS1 = (Ok iamS1, storeS1Loaded) /\
  has_member (rm_Members iamS1) "u1" /\
  AddIAMMember no_json_decode exampleIsValid exampleReadModelToMember exampleContext
    exampleRepository (Some (iam_model.mkIAMMember "iam-1" "u1" ["B"])) storeS1 =
    (Err (mkCaosError PreconditionFailed "IAM-GPhuz" "Errors.IAM.MemberAlreadyExisting"),
     storeS1Loaded).
Proof.
  assert (H1 : exampleIsValid (iam_model.mkIAMMember "iam-1" "u1" ["B"]) = true) by reflexivity.
  assert (H2 : iamByID exampleRepository "iam-1" storeS1 = (Ok iamS1, storeS1Loaded))
    by (vm_compute; reflexivity).
  assert (H3 : has_member (rm_Members iamS1) "u1")
    by (exists (mkMemberReadModel "u1" ["A"]); simpl; auto).
  exact (conj H1 (conj H2 (conj H3 (proj1 (AddIAMMember_duplicate_rejected no_json_decode
    exampleIsValid exampleReadModelToMember exampleContext exampleRepository
    (iam_model.mkIAMMember "iam-1" "u1" ["B"]) storeS1 storeS1Loaded iamS1 H1 H2 H3))))).
Defined.

(** C4: when the loaded IAM read model has no member with the given user
    id, [RemoveIAMMember] succeeds without calling the store's push: the
    event log is unchanged and the only port call is the load's filter. *)
Theorem RemoveIAMMember_absent_noop json_decode (ctx : Context) (r : Repository)
    (m : iam_model.IAMMember) (st st1 : Store) (iam : ReadModel) :
  iamByID r (iam_model.AggregateID m) st = (Ok iam, st1) ->
  ~ has_member (rm_Members iam) (iam_model.UserID m) ->
  RemoveIAMMember json_decode ctx r (Some m) st = (Ok tt, st1) /\
  log st1 = log st /\
  calls st1 = calls st ++ [CallFilter (iamQuery (iam_model.AggregateID m))].
Proof.
  intros Hload Habs.
  pose proof (iamByID_state _ _ _ _ _ Hload) as [Hl Hc].
  split; [|split; assumption].
  unfold RemoveIAMMember. cbv [bindES]. rewrite Hload.
  unfold MemberByUserID. rewrite (MemberByUserID_from_absent _ _ 0%Z Habs).
  reflexivity.
Qed.

Lemma RemoveIAMMember_absent_noop_witness :
  iamByID exampleRepository "iam-1" storeS1 = (Ok iamS1, storeS1Loaded) /\
  ~ has_member (rm_Members iamS1) "u99" /\
  RemoveIAMMember no_json_decode exampleContext exampleRepository
    (Some (iam_model.mkIAMMember "iam-1" "u99" [])) storeS1 = (Ok tt, storeS1Loaded).
Proof.
  assert (H1 : iamByID exampleRepository "iam-1" storeS1 = (Ok iamS1, storeS1Loaded))
    by (vm_compute; reflexivity).
  assert (H2 : ~ has_member (rm_Members iamS1) "u99").
  { intros (x & [<- | []] & Hx). simpl in Hx. discriminate. }
  exact (conj H1 (conj H2 (proj1 (RemoveIAMMember_absent_noop no_json_decode exampleContext
    exampleRepository (iam_model.mkIAMMember "iam-1" "u99" []) storeS1 storeS1Loaded iamS1 H1 H2)))).
Defined.

(** C3: once [AddIAMMember] has pushed and re-folded, its result is
    [readModelToMember] of the member looked up in the re-folded model
    (or the panic of that conversion): the nil check tests the input
    [member], which is non-nil there (a nil one panics in [IsValid]
    first), so the [Internal] error [IAM-nuoDN] is never returned; a member
    missing from the re-folded model gives [readModelToMember(nil)]. *)
Theorem AddIAMMember_nil_check_never_fires json_decode IsValid readModelToMember
    (ctx : Context) (r : Repository) (m : iam_model.IAMMember) (st st1 st2 : Store)
    (iam iam' : ReadModel) (events : list EventReader) :
  IsValid m = true ->
  iamByID r (iam_model.AggregateID m) st = (Ok iam, st1) ->
  fst (MemberByUserID (rm_Members iam) (iam_model.UserID m)) = (-1)%Z ->
  PushAggregates json_decode (eventstore r)
    [PushMemberAdded (AggregateFromReadModel iam) ctx (iam_model.UserID m) (iam_model.Roles m)] st1
    = (Ok events, st2) ->
  AppendAndReduce iam events = Ok iam' ->
  AddIAMMember json_decode IsValid readModelToMember ctx r (Some m) st =
    (returnMember (readModelToMember (snd (MemberByUserID (rm_Members iam') (iam_model.UserID m)))),
     st2) /\
  (forall e, fst (AddIAMMember json_decode IsValid readModelToMember ctx r (Some m) st) <> Err e) /\
  (snd (MemberByUserID (rm_Members iam') (iam_model.UserID m)) = None ->
   fst (AddIAMMember json_decode IsValid readModelToMember ctx r (Some m) st) =
     returnMember (readModelToMember None)) /\
  (forall st0, fst (AddIAMMember json_decode IsValid readModelToMember ctx r None st0) = Panic).
Proof.
  intros HV Hload Hidx Hpush Happ.
  assert (Hrun : AddIAMMember json_decode IsValid readModelToMember ctx r (Some m) st =
    (returnMember (readModelToMember (snd (MemberByUserID (rm_Members iam') (iam_model.UserID m)))),
     st2)).
  { unfold AddIAMMember. rewrite HV. cbn [negb]. cbv [bindES liftO retES].
    rewrite Hload.
    destruct (MemberByUserID (rm_Members iam) (iam_model.UserID m)) as [idx a].
    simpl in Hidx. subst idx. cbv [Z.ltb Z.compare CompOpp Pos.compare Pos.compare_cont]. cbv beta.
    rewrite Hpush. rewrite Happ.
    destruct (MemberByUserID (rm_Members iam') (iam_model.UserID m)) as [i2 am2]. simpl.
    destruct (readModelToMember am2); reflexivity. }
  rewrite Hrun. simpl. repeat split.
  - destruct (readModelToMember _); discriminate.
  - intros ->. reflexivity.
Qed.

Lemma AddIAMMember_nil_check_never_fires_witness :
  exampleIsValid (iam_model.mkIAMMember "iam-1" "u2" ["A"]) = true /\
  AddIAMMember no_json_decode exampleIsValid exampleReadModelToMember exampleContext
    exampleRepository (Some (iam_model.mkIAMMember "iam-1" "u2" ["A"])) storeS1 =
    (returnMember (exampleReadModelToMember (snd (MemberByUserID (rm_Members iamS2) "u2"))),
     storeS2).
Proof.
  assert (H1 : exampleIsValid (iam_model.mkIAMMember "iam-1" "u2" ["A"]) = true) by reflexivity.
  assert (H2 : iamByID exampleRepository "iam-1" storeS1 = (Ok iamS1, storeS1Loaded))
    by (vm_compute; reflexivity).
  assert (H3 : fst (MemberByUserID (rm_Members iamS1) "u2") = (-1)%Z) by reflexivity.
  assert (H4 : PushAggregates no_json_decode (eventstore exampleRepository)
    [PushMemberAdded (AggregateFromReadModel iamS1) exampleContext "u2" ["A"]] storeS1Loaded
    = (Ok eventsS2, storeS2)) by (vm_compute; reflexivity).
  assert (H5 : AppendAndReduce iamS1 eventsS2 = Ok iamS2) by (vm_compute; reflexivity).
  exact (conj H1 (proj1 (AddIAMMember_nil_check_never_fires no_json_decode exampleIsValid
    exampleReadModelToMember exampleContext exampleRepository
    (iam_model.mkIAMMember "iam-1" "u2" ["A"]) storeS1 storeS1Loaded storeS2 iamS1 iamS2
    eventsS2 H1 H2 H3 H4 H5))).
Defined.

(* ------------------------------------------------------------------ *)
(** ** Mapping *)

Lemma mapEvents_Ok_decoders es (l : list repository.Event) :
  forall evs, mapEvents es l = Ok evs -> forall x, In x l -> has_decoder es x = true.
Proof.
  induction l as [|e rest IH]; intros evs H x Hin; [destruct Hin|].
  simpl in H. unfold has_decoder.
  destruct (eventMapper es !! repository.Type_ e) as [[[f|]]|] eqn:E; try discriminate.
  invert_binds. destruct Hin as [<- | Hin].
  - rewrite E. reflexivity.
  - exact (IH _ Hr0 x Hin).
Qed.

Lemma mapEvents_app_Ok es (l1 l2 : list repository.Event) evs1 :
  mapEvents es l1 = Ok evs1 ->
  mapEvents es (l1 ++ l2) = let? evs2 := mapEvents es l2 in Ok (evs1 ++ evs2).
Proof.
  revert evs1. induction l1 as [|e rest IH]; intros evs1 H; simpl in H.
  - injection H as <-. simpl. destruct (mapEvents es l2); reflexivity.
  - simpl. destruct (eventMapper es !! repository.Type_ e) as [[[f|]]|]; try discriminate.
    invert_binds. rewrite Hr. simpl. rewrite (IH _ Hr0).
    destruct (mapEvents es l2); reflexivity.
Qed.

(** C5: a stored event whose type has no registered decoder makes the
    mapping fail with [UnknownEventType] once it is reached (every event
    before it decoded), no list containing it maps to events, and a filter
    whose result reaches it returns that error. *)
Theorem mapEvents_unknown_event_type (es : Eventstore) (e : repository.Event)
    (l1 l2 : list repository.Event) (evs1 : list EventReader) :
  has_decoder es e = false ->
  mapEvents es l1 = Ok evs1 ->
  (exists err, mapEvents es (l1 ++ e :: l2) = Err err /\ errKind err = UnknownEventType) /\
  (forall l evs, In e l -> mapEvents es l <> Ok evs) /\
  (forall q sq (st : Store), build q = Ok sq -> filter (matches sq) (log st) = l1 ++ e :: l2 ->
     exists err, fst (FilterEvents es q st) = Err err /\ errKind err = UnknownEventType).
Proof.
  intros Hd H1.
  assert (Hfirst : exists err, mapEvents es (l1 ++ e :: l2) = Err err /\
                               errKind err = UnknownEventType).
  { rewrite (mapEvents_app_Ok _ _ _ _ H1). simpl. unfold has_decoder in Hd.
    destruct (eventMapper es !! repository.Type_ e) as [[[f|]]|]; try discriminate;
      eexists; split; reflexivity. }
  split; [exact Hfirst | split].
  - intros l evs Hin H. apply (mapEvents_Ok_decoders _ _ _ H) in Hin. congruence.
  - intros q sq st Hb Hf. destruct Hfirst as (err & Herr & Hk). exists err. split; [|exact Hk].
    unfold FilterEvents, bindES, liftO, repoFilter. rewrite Hb. simpl. rewrite Hf, Herr.
    reflexivity.
Qed.


Lemma mapEvents_unknown_event_type_witness :
  has_decoder exampleEventstore unregisteredEvent = false /\
  exists err, mapEvents exampleEventstore [unregisteredEvent] = Err err /\
              errKind err = UnknownEventType.
Proof.
  assert (H1 : has_decoder exampleEventstore unregisteredEvent = false)
    by (vm_compute; reflexivity).
  assert (H2 : mapEvents exampleEventstore [] = Ok []) by reflexivity.
  exact (conj H1 (proj1 (mapEvents_unknown_event_type exampleEventstore unregisteredEvent
    [] [] [] H1 H2))).
Defined.

(** C6: a nil query factory, or one without an aggregate type, makes
    [FilterEvents], [FilterToReducer] and [LatestSequence] return an
    [InvalidQuery] error and leaves the store as it was: no port call. *)
Theorem invalid_query_rejected {R} (es : Eventstore) (red : reducer R) (r : R)
    (q : option SearchQueryFactory) (st : Store) :
  (q = None \/ exists f, q = Some f /\ aggregateTypes f = []) ->
  exists err, errKind err = InvalidQuery /\
    FilterEvents es q st = (Err err, st) /\
    FilterToReducer es q red r st = (Err err, st) /\
    LatestSequence q st = (Err err, st).
Proof.
  intros Hq.
  assert (Hb : build q = Err (mkCaosError InvalidQuery "MODEL-tGAD3" "factory invalid")).
  { destruct Hq as [-> | (f & -> & Ht)]; simpl; [reflexivity|]. rewrite Ht. reflexivity. }
  exists (mkCaosError InvalidQuery "MODEL-tGAD3" "factory invalid").
  unfold FilterToReducer, FilterEvents, LatestSequence, bindES, liftO. rewrite Hb.
  repeat split.
Qed.

Lemma invalid_query_rejected_witness :
  exists err, errKind err = InvalidQuery /\
    FilterEvents exampleEventstore None storeS1 = (Err err, storeS1) /\
    FilterToReducer exampleEventstore None ReadModelReducer (NewReadModel "iam-1") storeS1
      = (Err err, storeS1) /\
    LatestSequence None storeS1 = (Err err, storeS1).
Proof.
  exact (invalid_query_rejected exampleEventstore ReadModelReducer (NewReadModel "iam-1")
    None storeS1 (or_introl eq_refl)).
Defined.

(** C7: push-time serialisation of a payload: a value that marshals to a
    JSON object, or bytes that decode to one, is accepted as that object;
    a nil payload gives null data and no error; a top-level scalar, or a
    pointer to one, is rejected with an [InvalidArgument] error. *)
Theorem eventData_json_object (json_decode : string -> option json) :
  (forall v o, is_bytes v = false -> marshal v = Some (JObj o) ->
     eventData json_decode v = Ok (Some (JObj o))) /\
  (forall b o, json_decode b = Some (JObj o) ->
     eventData json_decode (GBytes b) = Ok (Some (JObj o))) /\
  eventData json_decode GNil = Ok None /\
  (forall v, is_scalar v = true ->
     isErrKind InvalidArgument (eventData json_decode v) = true /\
     isErrKind InvalidArgument (eventData json_decode (GPtr v)) = true).
Proof.
  split; [|split; [|split]].
  - intros v o Hb Hm. destruct v; simpl in Hb; try discriminate;
      try (simpl in Hm; discriminate); unfold eventData; rewrite Hm; reflexivity.
  - intros b o H. simpl. rewrite H. reflexivity.
  - reflexivity.
  - intros v Hs. destruct v; simpl in Hs; try discriminate; split; reflexivity.
Qed.

Lemma eventData_json_object_witness :
  eventData no_json_decode (GStruct [("userId", GString "u1")])
    = Ok (Some (JObj [("userId", JStr "u1")])) /\
  isErrKind InvalidArgument (eventData no_json_decode (GPtr (GInt 5))) = true.
Proof.
  destruct (eventData_json_object no_json_decode) as (H1 & _ & _ & H4).
  split.
  - apply H1; reflexivity.
  - exact (proj2 (H4 (GInt 5) eq_refl)).
Defined.

(** C8 (counterexample): registering a valid pair does not always add an
    entry: a type that is registered already keeps the table's size. *)
Lemma RegisterFilterEventMapper_adds_one_counterexample :
  ~ (forall es t f, t <> "" ->
       size (eventMapper (RegisterFilterEventMapper es t (Some f)))
       = S (size (eventMapper es))).
Proof.
  intros H.
  specialize (H registeredEventstore "event.type" testMapper ltac:(discriminate)).
  vm_compute in H. discriminate.
Qed.

(** C8 (amended): an empty type name or a nil mapper leaves the eventstore
    as it was; a valid pair sets the mapper of its type, which adds one
    entry for a new type and replaces the mapper of a registered one,
    keeping the size. *)
Theorem RegisterFilterEventMapper_table :
  (forall es t, RegisterFilterEventMapper es t None = es) /\
  (forall es f, RegisterFilterEventMapper es "" (Some f) = es) /\
  (forall es t f, t <> "" ->
     eventMapper (RegisterFilterEventMapper es t (Some f)) !! t
       = Some {| interceptor_eventMapper := Some f |} /\
     (forall t', t' <> t ->
        eventMapper (RegisterFilterEventMapper es t (Some f)) !! t' = eventMapper es !! t') /\
     (eventMapper es !! t = None ->
        size (eventMapper (RegisterFilterEventMapper es t (Some f))) = S (size (eventMapper es))) /\
     (is_Some (eventMapper es !! t) ->
        size (eventMapper (RegisterFilterEventMapper es t (Some f))) = size (eventMapper es))).
Proof.
  split; [|split].
  - reflexivity.
  - reflexivity.
  - intros es t f Ht. unfold RegisterFilterEventMapper.
    destruct (String.eqb_spec t ""); [contradiction|]. simpl.
    split; [|split; [|split]].
    + apply lookup_insert_eq.
    + intros t' Hne. apply lookup_insert_ne. congruence.
    + apply map_size_insert_None.
    + apply map_size_insert_Some.
Qed.

Lemma RegisterFilterEventMapper_table_witness :
  size (eventMapper (RegisterFilterEventMapper (mkEventstore ∅) "event.type" (Some testMapper)))
    = 1 /\
  size (eventMapper (RegisterFilterEventMapper registeredEventstore "event.type" (Some testMapper)))
    = 1.
Proof.
  destruct RegisterFilterEventMapper_table as (_ & _ & H).
  split.
  - exact (proj1 (proj2 (proj2 (H (mkEventstore ∅) "event.type" testMapper ltac:(discriminate))))
             eq_refl).
  - refine (proj2 (proj2 (proj2 (H registeredEventstore "event.type" testMapper
                                   ltac:(discriminate)))) _).
    vm_compute. eexists. reflexivity.
Defined.

Lemma json_eqb_JStr (v : json) (u : string) : json_eqb v (JStr u) = true -> v = JStr u.
Proof.
  destruct v; simpl; try discriminate. intros H. apply String.eqb_eq in H. congruence.
Qed.

Lemma in_strings_single (x y : string) : in_strings x [y] = true <-> x = y.
Proof.
  unfold in_strings. simpl. rewrite orb_false_r. apply String.eqb_eq.
Qed.

Lemma matches_memberByID (iamID userID : string) (e : repository.Event) :
  matches (memberByIDSearchQuery iamID userID) e = true <->
  repository.AggregateType e = AggregateType /\ repository.AggregateID e = iamID /\
  lookup_data "userId" (repository.Data e) = Some (JStr userID).
Proof.
  unfold matches, memberByIDSearchQuery.
  cbn [repository.sq_AggregateTypes repository.sq_AggregateIDs repository.sq_EventTypes
       repository.sq_EventData forallb fst snd].
  rewrite !andb_true_r, !andb_true_iff, !in_strings_single.
  split.
  - intros ((Ht & Hi) & Hd). repeat split; auto.
    destruct (lookup_data "userId" (repository.Data e)) as [v|]; [|discriminate].
    f_equal. apply json_eqb_JStr. exact Hd.
  - intros (Ht & Hi & Hd). rewrite Hd. cbn [json_eqb]. rewrite String.eqb_refl.
    repeat split; auto.
Qed.

(** C9: [MemberByID iamID userID] builds the query of full events of the
    aggregate type [iam], the aggregate [iamID] and the one data predicate
    [userId = userID]; it filters the log with it once, so exactly the
    events of that aggregate whose payload has that user are mapped,
    appended to the member read model and reduced into the result. *)
Theorem MemberByID_query (r : Repository) (iamID userID : string) (st st' : Store)
    (mm : MemberQueryModel) :
  MemberByID r iamID userID st = (Ok mm, st') ->
  build (Some (memberByIDQuery iamID userID)) = Ok (memberByIDSearchQuery iamID userID) /\
  repository.sq_Columns (memberByIDSearchQuery iamID userID) = repository.ColumnsEvent /\
  log st' = log st /\
  calls st' = calls st ++ [CallFilter (memberByIDSearchQuery iamID userID)] /\
  (forall e, In e (filter (matches (memberByIDSearchQuery iamID userID)) (log st)) <->
     In e (log st) /\ repository.AggregateType e = AggregateType /\
     repository.AggregateID e = iamID /\
     lookup_data "userId" (repository.Data e) = Some (JStr userID)) /\
  exists evs r1,
    mapEvents (eventstore r) (filter (matches (memberByIDSearchQuery iamID userID)) (log st))
      = Ok evs /\
    AppendEvents MemberQueryReducer newMemberQueryModel evs = Ok r1 /\
    Reduce MemberQueryReducer r1 = Ok mm.
Proof.
  intros H.
  assert (Hb : build (Some (memberByIDQuery iamID userID)) = Ok (memberByIDSearchQuery iamID userID))
    by reflexivity.
  unfold MemberByID, FilterToReducer, FilterEvents, bindES, liftO, repoFilter in H.
  cbv beta zeta in H. rewrite Hb in H.
  destruct (mapEvents (eventstore r) _) as [evs| |] eqn:Em; try discriminate.
  destruct (AppendEvents MemberQueryReducer newMemberQueryModel evs) as [r1| |] eqn:Ea;
    try discriminate.
  destruct (Reduce MemberQueryReducer r1) as [m| |] eqn:Er; try discriminate.
  injection H as <- <-.
  split; [exact Hb|]. split; [reflexivity|]. split; [reflexivity|]. split; [reflexivity|].
  split.
  - intros e. rewrite <- (list_elem_of_In (filter _ _) e), list_elem_of_filter, list_elem_of_In.
    rewrite Is_true_true, matches_memberByID. tauto.
  - exists evs, r1. auto.
Qed.

Lemma MemberByID_query_witness :
  MemberByID exampleRepository "iam-1" "u1" storeS1
    = (Ok (mkMemberQueryModel [] "u1" ["A"]),
       mkStore (log storeS1) [CallFilter (memberByIDSearchQuery "iam-1" "u1")]) /\
  calls (mkStore (log storeS1) [CallFilter (memberByIDSearchQuery "iam-1" "u1")])
    = calls storeS1 ++ [CallFilter (memberByIDSearchQuery "iam-1" "u1")].
Proof.
  assert (H : MemberByID exampleRepository "iam-1" "u1" storeS1
    = (Ok (mkMemberQueryModel [] "u1" ["A"]),
       mkStore (log storeS1) [CallFilter (memberByIDSearchQuery "iam-1" "u1")]))
    by (vm_compute; reflexivity).
  exact (conj H (proj1 (proj2 (proj2 (proj2 (MemberByID_query _ _ _ _ _ _ H)))))).
Defined.

Lemma IDPOIDCConfigWriteModel_AppendEvents_cons wm ev rest :
  IDPOIDCConfigWriteModel_AppendEvents wm (ev :: rest) =
  IDPOIDCConfigWriteModel_AppendEvents
    (mkIDPOIDCConfigWriteModel
       (mkConfigWriteModel (cwm_Events (wm_ConfigWriteModel wm) ++ forwarded (idpConfigID wm) ev))
       (iamID wm) (idpConfigID wm)) rest.
Proof.
  unfold IDPOIDCConfigWriteModel_AppendEvents at 1. simpl. f_equal.
  destruct wm as [[old] i c]. unfold forwarded, forwardToConfig, ConfigWriteModel_AppendEvents.
  simpl. destruct ev as [| | |e|e| | |]; simpl; try reflexivity.
  - rewrite (String.eqb_sym (ca_IDPConfigID e) c).
    destruct (String.eqb c (ca_IDPConfigID e)); simpl; [reflexivity|]. rewrite app_nil_r. reflexivity.
  - rewrite (String.eqb_sym (cc_IDPConfigID e) c).
    destruct (String.eqb c (cc_IDPConfigID e)); simpl; [reflexivity|]. rewrite app_nil_r. reflexivity.
Qed.

(** C10: [IDPOIDCConfigWriteModel.AppendEvents] hands the inner
    [ConfigWriteModel], in order, the embedded event of each
    [IDPOIDCConfigAddedEvent] and [IDPOIDCConfigChangedEvent] whose
    [IDPConfigID] equals the model's [idpConfigID] and no other of these,
    and every event of another type as it is; the model's [iamID] and
    [idpConfigID] do not change. *)
Theorem IDPOIDCConfigWriteModel_AppendEvents_forwarding
    (wm : IDPOIDCConfigWriteModel) (events : list EventReader) :
  let wm' := IDPOIDCConfigWriteModel_AppendEvents wm events in
  cwm_Events (wm_ConfigWriteModel wm') =
    cwm_Events (wm_ConfigWriteModel wm) ++ flat_map (forwarded (idpConfigID wm)) events /\
  iamID wm' = iamID wm /\ idpConfigID wm' = idpConfigID wm /\
  (forall e, cwm_Events (wm_ConfigWriteModel
               (IDPOIDCConfigWriteModel_AppendEvents wm [IDPOIDCConfigAddedEvent e])) =
     cwm_Events (wm_ConfigWriteModel wm) ++
       (if String.eqb (ca_IDPConfigID e) (idpConfigID wm) then [OIDCConfigAddedEvent e] else [])) /\
  (forall e, cwm_Events (wm_ConfigWriteModel
               (IDPOIDCConfigWriteModel_AppendEvents wm [IDPOIDCConfigChangedEvent e])) =
     cwm_Events (wm_ConfigWriteModel wm) ++
       (if String.eqb (cc_IDPConfigID e) (idpConfigID wm) then [OIDCConfigChangedEvent e] else [])) /\
  (forall ev, (forall e, ev <> IDPOIDCConfigAddedEvent e) ->
     (forall e, ev <> IDPOIDCConfigChangedEvent e) ->
     cwm_Events (wm_ConfigWriteModel (IDPOIDCConfigWriteModel_AppendEvents wm [ev])) =
       cwm_Events (wm_ConfigWriteModel wm) ++ [ev]).
Proof.
  assert (Hall : forall events wm,
    let wm' := IDPOIDCConfigWriteModel_AppendEvents wm events in
    cwm_Events (wm_ConfigWriteModel wm') =
      cwm_Events (wm_ConfigWriteModel wm) ++ flat_map (forwarded (idpConfigID wm)) events /\
    iamID wm' = iamID wm /\ idpConfigID wm' = idpConfigID wm).
  { induction events0 as [|ev rest IH]; intros wm0; cbv zeta.
    - simpl. rewrite app_nil_r. auto.
    - rewrite IDPOIDCConfigWriteModel_AppendEvents_cons.
      destruct (IH (mkIDPOIDCConfigWriteModel
         (mkConfigWriteModel (cwm_Events (wm_ConfigWriteModel wm0) ++ forwarded (idpConfigID wm0) ev))
         (iamID wm0) (idpConfigID wm0))) as (H1 & H2 & H3).
      simpl in H1, H2, H3. cbn [flat_map]. rewrite H1, H2, H3, app_assoc. auto. }
  intros wm'. destruct (Hall events wm) as (H1 & H2 & H3).
  split; [exact H1|]. split; [exact H2|]. split; [exact H3|].
  split; [|split].
  - intros e. rewrite (proj1 (Hall _ wm)). simpl. rewrite app_nil_r. reflexivity.
  - intros e. rewrite (proj1 (Hall _ wm)). simpl. rewrite app_nil_r. reflexivity.
  - intros ev Ha Hc. rewrite (proj1 (Hall _ wm)). simpl.
    destruct ev as [| | |e|e| | |]; try reflexivity;
      [destruct (Ha e eq_refl) | destruct (Hc e eq_refl)].
Qed.

Lemma IDPOIDCConfigWriteModel_AppendEvents_forwarding_witness :
  cwm_Events (wm_ConfigWriteModel
    (IDPOIDCConfigWriteModel_AppendEvents (NewIDPOIDCConfigWriteModel "iam-1" "idp-1")
       [IDPOIDCConfigAddedEvent (oidcAdded "idp-1"); IDPOIDCConfigAddedEvent (oidcAdded "idp-2");
        OIDCConfigAddedEvent (oidcAdded "idp-2")]))
  = [OIDCConfigAddedEvent (oidcAdded "idp-1"); OIDCConfigAddedEvent (oidcAdded "idp-2")].
Proof.
  rewrite (proj1 (IDPOIDCConfigWriteModel_AppendEvents_forwarding
    (NewIDPOIDCConfigWriteModel "iam-1" "idp-1")
    [IDPOIDCConfigAddedEvent (oidcAdded "idp-1"); IDPOIDCConfigAddedEvent (oidcAdded "idp-2");
     OIDCConfigAddedEvent (oidcAdded "idp-2")])).
  vm_compute. reflexivity.
Defined.

(** C1 (counterexample): the batch of the test case "multiple aggregates"
    is not one chain: the first event of the second aggregate has no
    previous event. *)
Lemma aggregatesToEvents_chain_counterexample :
  ~ (forall (dec : string -> option json) aggs evs,
       aggregatesToEvents dec aggs = Ok evs -> chained None evs).
Proof.
  intros H.
  destruct (aggregatesToEvents no_json_decode multipleAggregates) as [evs| |] eqn:E;
    [| vm_compute in E; discriminate | vm_compute in E; discriminate].
  specialize (H _ _ _ E). vm_compute in E. injection E as <-.
  simpl in H. destruct H as (_ & _ & H & _). discriminate.
Qed.

(** C1 (amended): a batch is the concatenation of one group per aggregate,
    in order; each group holds the aggregate's events, and its back
    references form a chain that starts with no previous event, so the
    first event of every aggregate is unlinked.  The repository's test
    "multiple aggregates" demands this: any batch it accepts leaves the
    first event of the second aggregate unlinked. *)
Theorem aggregatesToEvents_links_per_aggregate (dec : string -> option json)
    (aggs : list Aggregate) (evs : list (Ptr * repository.Event)) :
  aggregatesToEvents dec aggs = Ok evs ->
  (exists groups, evs = concat groups /\
    Forall2 (fun a g =>
      List.length g = List.length (agg_Events a) /\
      Forall (fun pe => repository.AggregateID (snd pe) = agg_ID a) g /\
      chained None g) aggs groups) /\
  (forall got, aggregatesToEvents_test_passes multipleAggregatesExpected (Ok got) = true ->
     exists p e, nth_error got 2 = Some (p, e) /\ repository.PreviousEvent e = None).
Proof.
  intros H. split.
  - exact (aggregatesToEvents_from_groups dec aggs 0 evs H).
  - exact multipleAggregates_test_forces_unlinked.
Qed.

Lemma aggregatesToEvents_links_per_aggregate_witness :
  aggregatesToEvents no_json_decode multipleAggregates = Ok multipleAggregatesBatch /\
  exists groups, multipleAggregatesBatch = concat groups /\ List.length groups = 2.
Proof.
  assert (E : aggregatesToEvents no_json_decode multipleAggregates = Ok multipleAggregatesBatch)
    by (vm_compute; reflexivity).
  split; [exact E|].
  destruct (proj1 (aggregatesToEvents_links_per_aggregate _ _ _ E)) as (groups & Hc & Hf).
  exists groups. split; [exact Hc|]. rewrite <- (Forall2_length _ _ _ Hf). reflexivity.
Defined.

(* ================================================================== *)
(** * Further properties of the code *)

(* ------------------------------------------------------------------ *)
(** ** Policy read models *)

Lemma LabelPolicyReadModel_AppendEvents_eq rm events :
  LabelPolicyReadModel_AppendEvents rm events =
  Ok (mkLabelPolicyReadModel
        (mkPolicyReadModel (prm_Events (lp_ReadModel rm) ++ flat_map label_kept events))).
Proof.
  unfold LabelPolicyReadModel_AppendEvents. f_equal. revert rm.
  induction events as [|ev rest IH]; intros [[l]]; simpl.
  - rewrite app_nil_r. reflexivity.
  - rewrite IH. destruct ev; simpl; rewrite <- ?app_assoc; reflexivity.
Qed.

Lemma PasswordLockoutPolicyReadModel_AppendEvents_eq rm events :
  PasswordLockoutPolicyReadModel_AppendEvents rm events =
  Ok (mkPasswordLockoutPolicyReadModel
        (mkPolicyReadModel (prm_Events (plp_ReadModel rm) ++ flat_map lockout_kept events))).
Proof.
  unfold PasswordLockoutPolicyReadModel_AppendEvents. f_equal. revert rm.
  induction events as [|ev rest IH]; intros [[l]]; simpl.
  - rewrite app_nil_r. reflexivity.
  - rewrite IH. destruct ev; simpl; rewrite <- ?app_assoc; reflexivity.
Qed.

(** X1: [LabelPolicyReadModel.AppendEvents] never fails.  Its read model
    receives, in order, the embedded policy event of each iam label policy
    event and each policy label event as it is; a password lockout policy
    event or any other event is dropped, so giving the events in two calls
    is giving them in one. *)
Theorem LabelPolicyReadModel_AppendEvents_keeps_label_events
    (rm : LabelPolicyReadModel) (events : list PolicyEventReader) :
  LabelPolicyReadModel_AppendEvents rm events =
    Ok (mkLabelPolicyReadModel
          (mkPolicyReadModel (prm_Events (lp_ReadModel rm) ++ flat_map label_kept events))) /\
  (forall e, LabelPolicyReadModel_AppendEvents rm [iam_LabelPolicyAddedEvent e] =
     Ok (mkLabelPolicyReadModel
           (mkPolicyReadModel (prm_Events (lp_ReadModel rm) ++ [policy_LabelPolicyAddedEvent e])))) /\
  (forall e, LabelPolicyReadModel_AppendEvents rm [iam_PasswordLockoutPolicyAddedEvent e] = Ok rm) /\
  (forall b, LabelPolicyReadModel_AppendEvents rm [OtherPolicyEvent b] = Ok rm) /\
  (forall l1 l2,
     bindO (LabelPolicyReadModel_AppendEvents rm l1)
       (fun rm1 => LabelPolicyReadModel_AppendEvents rm1 l2)
     = LabelPolicyReadModel_AppendEvents rm (l1 ++ l2)).
Proof.
  destruct rm as [[l]].
  split; [apply LabelPolicyReadModel_AppendEvents_eq|].
  split; [|split; [|split]].
  - intros e. reflexivity.
  - intros e. reflexivity.
  - intros b. reflexivity.
  - intros l1 l2. rewrite LabelPolicyReadModel_AppendEvents_eq. simpl. rewrite !LabelPolicyReadModel_AppendEvents_eq. simpl.
    rewrite flat_map_app, app_assoc. reflexivity.
Qed.

(** X2: [PasswordLockoutPolicyReadModel.AppendEvents] never fails.  Its read
    model receives, in order, the embedded policy event of each iam
    password lockout policy event and each policy password lockout event as
    it is; a label policy event or any other event is dropped, and two calls
    are one call on the concatenation. *)
Theorem PasswordLockoutPolicyReadModel_AppendEvents_keeps_lockout_events
    (rm : PasswordLockoutPolicyReadModel) (events : list PolicyEventReader) :
  PasswordLockoutPolicyReadModel_AppendEvents rm events =
    Ok (mkPasswordLockoutPolicyReadModel
          (mkPolicyReadModel (prm_Events (plp_ReadModel rm) ++ flat_map lockout_kept events))) /\
  (forall e, PasswordLockoutPolicyReadModel_AppendEvents rm [iam_PasswordLockoutPolicyChangedEvent e] =
     Ok (mkPasswordLockoutPolicyReadModel
           (mkPolicyReadModel (prm_Events (plp_ReadModel rm)
                                 ++ [policy_PasswordLockoutPolicyChangedEvent e])))) /\
  (forall e, PasswordLockoutPolicyReadModel_AppendEvents rm [iam_LabelPolicyAddedEvent e] = Ok rm) /\
  (forall b, PasswordLockoutPolicyReadModel_AppendEvents rm [OtherPolicyEvent b] = Ok rm) /\
  (forall l1 l2,
     bindO (PasswordLockoutPolicyReadModel_AppendEvents rm l1)
       (fun rm1 => PasswordLockoutPolicyReadModel_AppendEvents rm1 l2)
     = PasswordLockoutPolicyReadModel_AppendEvents rm (l1 ++ l2)).
Proof.
  destruct rm as [[l]].
  split; [apply PasswordLockoutPolicyReadModel_AppendEvents_eq|].
  split; [|split; [|split]].
  - intros e. reflexivity.
  - intros e. reflexivity.
  - intros b. reflexivity.
  - intros l1 l2. rewrite PasswordLockoutPolicyReadModel_AppendEvents_eq. simpl. rewrite !PasswordLockoutPolicyReadModel_AppendEvents_eq. simpl.
    rewrite flat_map_app, app_assoc. reflexivity.
Qed.

(* ------------------------------------------------------------------ *)
(** ** The IAM view *)

Section ViewProofs.
Variable Step : Type.
Variable ReadModel_Reduce : view.ReadModel Step -> outcome (view.ReadModel Step).

(** A field the fold of [IAM.Reduce] sets from some events: the last such
    event decides it; without one, it keeps its value. *)
Lemma view_fold_field {A} (get : view.IAM Step -> A) (sel : view.Event Step -> option A)
    (Hsel : forall rm ev, get (view.reduceEvent rm ev) =
                          match sel ev with Some a => a | None => get rm end) :
  (forall l rm, (forall ev, In ev l -> sel ev = None) ->
     get (fold_left view.reduceEvent l rm) = get rm) /\
  (forall pre ev a post rm, sel ev = Some a -> (forall ev', In ev' post -> sel ev' = None) ->
     get (fold_left view.reduceEvent (pre ++ ev :: post) rm) = a).
Proof.
  assert (Hnone : forall l rm, (forall ev, In ev l -> sel ev = None) ->
            get (fold_left view.reduceEvent l rm) = get rm).
  { induction l as [|ev rest IH]; intros rm Hl; simpl; [reflexivity|].
    rewrite IH by (intros; apply Hl; simpl; auto).
    rewrite Hsel, (Hl ev (or_introl eq_refl)). reflexivity. }
  split; [exact Hnone|].
  intros pre ev a post rm Ha Hpost. rewrite fold_left_app. simpl.
  rewrite Hnone by exact Hpost. rewrite Hsel, Ha. reflexivity.
Qed.

Lemma view_fold_ReadModel l (rm : view.IAM Step) :
  view.iam_ReadModel (fold_left view.reduceEvent l rm) = view.iam_ReadModel rm.
Proof.
  revert rm. induction l as [|ev rest IH]; intros rm; simpl; [reflexivity|].
  rewrite IH. destruct ev as [| | ? ? [|] |]; reflexivity.
Qed.

Lemma view_IAM_Reduce_Ok (rm rm' : view.IAM Step) :
  view.IAM_Reduce ReadModel_Reduce rm = Ok rm' ->
  exists base, ReadModel_Reduce (view.iam_ReadModel rm) = Ok base /\
    rm' = view.mkIAM base
            (view.SetUpStarted (fold_left view.reduceEvent (view.Events (view.iam_ReadModel rm)) rm))
            (view.SetUpDone (fold_left view.reduceEvent (view.Events (view.iam_ReadModel rm)) rm))
            (view.GlobalOrgID (fold_left view.reduceEvent (view.Events (view.iam_ReadModel rm)) rm))
            (view.ProjectID (fold_left view.reduceEvent (view.Events (view.iam_ReadModel rm)) rm)).
Proof.
  unfold view.IAM_Reduce. rewrite view_fold_ReadModel. intros H. invert_binds.
  eexists. split; [eassumption | reflexivity].
Qed.

(** X3: [IAM.Reduce] sets [ProjectID] from the last [ProjectSetEvent] of the
    pending events and [GlobalOrgID] from the last [GlobalOrgSetEvent];
    without such an event the field keeps its value. *)
Theorem view_IAM_Reduce_project_and_org (rm rm' : view.IAM Step) :
  view.IAM_Reduce ReadModel_Reduce rm = Ok rm' ->
  (forall pre b p post, view.Events (view.iam_ReadModel rm) = pre ++ view.ProjectSetEvent b p :: post ->
     (forall b' p', ~ In (view.ProjectSetEvent b' p') post) -> view.ProjectID rm' = p) /\
  ((forall b p, ~ In (view.ProjectSetEvent b p) (view.Events (view.iam_ReadModel rm))) ->
     view.ProjectID rm' = view.ProjectID rm) /\
  (forall pre b o post, view.Events (view.iam_ReadModel rm) = pre ++ view.GlobalOrgSetEvent b o :: post ->
     (forall b' o', ~ In (view.GlobalOrgSetEvent b' o') post) -> view.GlobalOrgID rm' = o) /\
  ((forall b o, ~ In (view.GlobalOrgSetEvent b o) (view.Events (view.iam_ReadModel rm))) ->
     view.GlobalOrgID rm' = view.GlobalOrgID rm).
Proof.
  intros H. apply view_IAM_Reduce_Ok in H as (base & _ & ->). simpl.
  set (selP := fun ev : view.Event Step =>
                 match ev with view.ProjectSetEvent _ p => Some p | _ => None end).
  set (selO := fun ev : view.Event Step =>
                 match ev with view.GlobalOrgSetEvent _ o => Some o | _ => None end).
  assert (HP : forall rm ev, view.ProjectID (view.reduceEvent rm ev) =
                 match selP ev with Some a => a | None => view.ProjectID rm end)
    by (intros r [| | ? ? [|] |]; reflexivity).
  assert (HO : forall rm ev, view.GlobalOrgID (view.reduceEvent rm ev) =
                 match selO ev with Some a => a | None => view.GlobalOrgID rm end)
    by (intros r [| | ? ? [|] |]; reflexivity).
  destruct (view_fold_field _ _ HP) as (HP1 & HP2).
  destruct (view_fold_field _ _ HO) as (HO1 & HO2).
  split; [|split; [|split]].
  - intros pre b p post He Hpost. rewrite He.
    apply (HP2 pre (view.ProjectSetEvent b p) p post rm eq_refl).
    intros [] Hin; simpl; auto. exfalso. eapply Hpost. exact Hin.
  - intros Hn. apply HP1. intros [] Hin; simpl; auto. exfalso. eapply Hn. exact Hin.
  - intros pre b o post He Hpost. rewrite He.
    apply (HO2 pre (view.GlobalOrgSetEvent b o) o post rm eq_refl).
    intros [] Hin; simpl; auto. exfalso. eapply Hpost. exact Hin.
  - intros Hn. apply HO1. intros [] Hin; simpl; auto. exfalso. eapply Hn. exact Hin.
Qed.

(** X4: [IAM.Reduce] sets [SetUpDone] from the last [SetupStepEvent] marked
    done and [SetUpStarted] from the last one not marked done; a step event
    of the other kind never touches the field, and without one of its kind
    the field keeps its value. *)
Theorem view_IAM_Reduce_setup_steps (rm rm' : view.IAM Step) :
  view.IAM_Reduce ReadModel_Reduce rm = Ok rm' ->
  (forall pre b s post, view.Events (view.iam_ReadModel rm) = pre ++ view.SetupStepEvent b s true :: post ->
     (forall b' s', ~ In (view.SetupStepEvent b' s' true) post) -> view.SetUpDone rm' = s) /\
  ((forall b s, ~ In (view.SetupStepEvent b s true) (view.Events (view.iam_ReadModel rm))) ->
     view.SetUpDone rm' = view.SetUpDone rm) /\
  (forall pre b s post, view.Events (view.iam_ReadModel rm) = pre ++ view.SetupStepEvent b s false :: post ->
     (forall b' s', ~ In (view.SetupStepEvent b' s' false) post) -> view.SetUpStarted rm' = s) /\
  ((forall b s, ~ In (view.SetupStepEvent b s false) (view.Events (view.iam_ReadModel rm))) ->
     view.SetUpStarted rm' = view.SetUpStarted rm).
Proof.
  intros H. apply view_IAM_Reduce_Ok in H as (base & _ & ->). simpl.
  set (selD := fun ev : view.Event Step =>
                 match ev with view.SetupStepEvent _ s true => Some s | _ => None end).
  set (selS := fun ev : view.Event Step =>
                 match ev with view.SetupStepEvent _ s false => Some s | _ => None end).
  assert (HD : forall rm ev, view.SetUpDone (view.reduceEvent rm ev) =
                 match selD ev with Some a => a | None => view.SetUpDone rm end)
    by (intros r [| | ? ? [|] |]; reflexivity).
  assert (HS : forall rm ev, view.SetUpStarted (view.reduceEvent rm ev) =
                 match selS ev with Some a => a | None => view.SetUpStarted rm end)
    by (intros r [| | ? ? [|] |]; reflexivity).
  destruct (view_fold_field _ _ HD) as (HD1 & HD2).
  destruct (view_fold_field _ _ HS) as (HS1 & HS2).
  split; [|split; [|split]].
  - intros pre b s post He Hpost. rewrite He.
    apply (HD2 pre (view.SetupStepEvent b s true) s post rm eq_refl).
    intros [| | ? ? [|] |] Hin; simpl; auto. exfalso. eapply Hpost. exact Hin.
  - intros Hn. apply HD1. intros [| | ? ? [|] |] Hin; simpl; auto. exfalso. eapply Hn. exact Hin.
  - intros pre b s post He Hpost. rewrite He.
    apply (HS2 pre (view.SetupStepEvent b s false) s post rm eq_refl).
    intros [| | ? ? [|] |] Hin; simpl; auto. exfalso. eapply Hpost. exact Hin.
  - intros Hn. apply HS1. intros [| | ? ? [|] |] Hin; simpl; auto. exfalso. eapply Hn. exact Hin.
Qed.


End ViewProofs.

Lemma view_IAM_Reduce_project_and_org_witness :
  view.IAM_Reduce exampleViewReadModelReduce exampleViewIAM = Ok exampleViewIAMReduced /\
  view.ProjectID exampleViewIAMReduced = "p2".
Proof.
  assert (H : view.IAM_Reduce exampleViewReadModelReduce exampleViewIAM = Ok exampleViewIAMReduced)
    by reflexivity.
  split; [exact H|].
  apply (proj1 (view_IAM_Reduce_project_and_org nat exampleViewReadModelReduce _ _ H)
    [view.ProjectSetEvent viewBase "p1"; view.SetupStepEvent viewBase 1 false;
     view.GlobalOrgSetEvent viewBase "o1"; view.SetupStepEvent viewBase 1 true]
    viewBase "p2" [view.SetupStepEvent viewBase 2 false] eq_refl).
  intros b' p' [Hin | []]. discriminate.
Defined.

Lemma view_IAM_Reduce_setup_steps_witness :
  view.IAM_Reduce exampleViewReadModelReduce exampleViewIAM = Ok exampleViewIAMReduced /\
  view.SetUpStarted exampleViewIAMReduced = 2.
Proof.
  assert (H : view.IAM_Reduce exampleViewReadModelReduce exampleViewIAM = Ok exampleViewIAMReduced)
    by reflexivity.
  split; [exact H|].
  apply (proj1 (proj2 (proj2 (view_IAM_Reduce_setup_steps nat exampleViewReadModelReduce _ _ H)))
    [view.ProjectSetEvent viewBase "p1"; view.SetupStepEvent viewBase 1 false;
     view.GlobalOrgSetEvent viewBase "o1"; view.SetupStepEvent viewBase 1 true;
     view.ProjectSetEvent viewBase "p2"]
    viewBase 2 [] eq_refl).
  intros b' s' [].
Defined.

(* ------------------------------------------------------------------ *)
(** ** IDP OIDC configuration: query and mappers *)

(** X6: [IDPOIDCConfigWriteModel.Query] builds without error a query of full
    events of the aggregate type [iam] and the model's [iamID] only: it
    selects every event of that IAM, whatever the IDP configuration, and
    does not depend on [idpConfigID]. *)
Theorem IDPOIDCConfigWriteModel_Query_selects_iam wm :
  build (Some (IDPOIDCConfigWriteModel_Query wm)) =
    Ok (repository.mkSearchQuery repository.ColumnsEvent [AggregateType] [iamID wm] [] []) /\
  (forall e, matches (repository.mkSearchQuery repository.ColumnsEvent [AggregateType] [iamID wm] [] []) e
             = true <->
     repository.AggregateType e = AggregateType /\ repository.AggregateID e = iamID wm) /\
  (forall c, IDPOIDCConfigWriteModel_Query (mkIDPOIDCConfigWriteModel (wm_ConfigWriteModel wm) (iamID wm) c)
             = IDPOIDCConfigWriteModel_Query wm).
Proof.
  split; [reflexivity|]. split; [|reflexivity].
  intros e. unfold matches.
  cbn [repository.sq_AggregateTypes repository.sq_AggregateIDs repository.sq_EventTypes
       repository.sq_EventData forallb].
  rewrite !andb_true_r, andb_true_iff, !in_strings_single. tauto.
Qed.

Lemma IDPOIDCConfigWriteModel_AppendEvents_added1 wm c :
  cwm_Events (wm_ConfigWriteModel (IDPOIDCConfigWriteModel_AppendEvents wm [IDPOIDCConfigAddedEvent c])) =
  cwm_Events (wm_ConfigWriteModel wm) ++
    (if String.eqb (ca_IDPConfigID c) (idpConfigID wm) then [OIDCConfigAddedEvent c] else []).
Proof.
  destruct wm as [[old] i d]. unfold IDPOIDCConfigWriteModel_AppendEvents. simpl.
  rewrite (String.eqb_sym (ca_IDPConfigID c) d).
  destruct (String.eqb d (ca_IDPConfigID c)); simpl; [reflexivity|]. rewrite app_nil_r. reflexivity.
Qed.

Lemma IDPOIDCConfigWriteModel_AppendEvents_changed1 wm c :
  cwm_Events (wm_ConfigWriteModel (IDPOIDCConfigWriteModel_AppendEvents wm [IDPOIDCConfigChangedEvent c])) =
  cwm_Events (wm_ConfigWriteModel wm) ++
    (if String.eqb (cc_IDPConfigID c) (idpConfigID wm) then [OIDCConfigChangedEvent c] else []).
Proof.
  destruct wm as [[old] i d]. unfold IDPOIDCConfigWriteModel_AppendEvents. simpl.
  rewrite (String.eqb_sym (cc_IDPConfigID c) d).
  destruct (String.eqb d (cc_IDPConfigID c)); simpl; [reflexivity|]. rewrite app_nil_r. reflexivity.
Qed.

Section OIDCMapperProofs.
Variable oidc_ConfigAddedEventMapper : repository.Event -> outcome ConfigAddedEvent.
Variable oidc_ConfigChangedEventMapper : repository.Event -> outcome ConfigChangedEvent.

(** X7: With [IDPOIDCConfigAddedEventMapper] and
    [IDPOIDCConfigChangedEventMapper] registered for their event types, a
    stored IDP OIDC configuration event whose [oidc] decoding fails makes
    the mapping fail with that same error; one that decodes is mapped to
    the iam event, and an [IDPOIDCConfigWriteModel] given it passes the
    decoded [oidc] event to its inner model exactly when the
    configuration id is the model's. *)
Theorem IDPOIDCConfig_mappers_feed_write_model (es : Eventstore) (wm : IDPOIDCConfigWriteModel)
    (ev : repository.Event) :
  eventMapper es !! IDPOIDCConfigAddedEventType =
    Some {| interceptor_eventMapper := Some (IDPOIDCConfigAddedEventMapper oidc_ConfigAddedEventMapper) |} ->
  eventMapper es !! IDPOIDCConfigChangedEventType =
    Some {| interceptor_eventMapper := Some (IDPOIDCConfigChangedEventMapper oidc_ConfigChangedEventMapper) |} ->
  (repository.Type_ ev = IDPOIDCConfigAddedEventType ->
     (forall err, oidc_ConfigAddedEventMapper ev = Err err -> mapEvents es [ev] = Err err) /\
     (forall c, oidc_ConfigAddedEventMapper ev = Ok c ->
        mapEvents es [ev] = Ok [IDPOIDCConfigAddedEvent c] /\
        cwm_Events (wm_ConfigWriteModel (IDPOIDCConfigWriteModel_AppendEvents wm [IDPOIDCConfigAddedEvent c]))
        = cwm_Events (wm_ConfigWriteModel wm) ++
            (if String.eqb (ca_IDPConfigID c) (idpConfigID wm) then [OIDCConfigAddedEvent c] else []))) /\
  (repository.Type_ ev = IDPOIDCConfigChangedEventType ->
     (forall err, oidc_ConfigChangedEventMapper ev = Err err -> mapEvents es [ev] = Err err) /\
     (forall c, oidc_ConfigChangedEventMapper ev = Ok c ->
        mapEvents es [ev] = Ok [IDPOIDCConfigChangedEvent c] /\
        cwm_Events (wm_ConfigWriteModel (IDPOIDCConfigWriteModel_AppendEvents wm [IDPOIDCConfigChangedEvent c]))
        = cwm_Events (wm_ConfigWriteModel wm) ++
            (if String.eqb (cc_IDPConfigID c) (idpConfigID wm) then [OIDCConfigChangedEvent c] else []))).
Proof.
  intros Ha Hc. split; intros Ht; simpl; rewrite Ht.
  - rewrite Ha. unfold IDPOIDCConfigAddedEventMapper. split.
    + intros err He. rewrite He. reflexivity.
    + intros c He. rewrite He. split; [reflexivity|]. apply IDPOIDCConfigWriteModel_AppendEvents_added1.
  - rewrite Hc. unfold IDPOIDCConfigChangedEventMapper. split.
    + intros err He. rewrite He. reflexivity.
    + intros c He. rewrite He. split; [reflexivity|]. apply IDPOIDCConfigWriteModel_AppendEvents_changed1.
Qed.

End OIDCMapperProofs.

Lemma IDPOIDCConfig_mappers_feed_write_model_witness :
  mapEvents oidcEventstore [storedOIDCEvent IDPOIDCConfigAddedEventType]
    = Ok [IDPOIDCConfigAddedEvent (oidcAdded "idp-1")] /\
  cwm_Events (wm_ConfigWriteModel (IDPOIDCConfigWriteModel_AppendEvents
    (NewIDPOIDCConfigWriteModel "iam-1" "idp-2") [IDPOIDCConfigAddedEvent (oidcAdded "idp-1")])) = [] /\
  mapEvents oidcEventstore [storedOIDCEvent IDPOIDCConfigChangedEventType]
    = Err (mkCaosError InvalidArgument "OIDC-plaBZ" "unable to unmarshal event").
Proof.
  assert (Ha : eventMapper oidcEventstore !! IDPOIDCConfigAddedEventType =
    Some {| interceptor_eventMapper := Some (IDPOIDCConfigAddedEventMapper exampleOIDCAddedMapper) |})
    by reflexivity.
  assert (Hc : eventMapper oidcEventstore !! IDPOIDCConfigChangedEventType =
    Some {| interceptor_eventMapper := Some (IDPOIDCConfigChangedEventMapper exampleOIDCChangedMapper) |})
    by reflexivity.
  destruct (IDPOIDCConfig_mappers_feed_write_model exampleOIDCAddedMapper exampleOIDCChangedMapper
    oidcEventstore (NewIDPOIDCConfigWriteModel "iam-1" "idp-2")
    (storedOIDCEvent IDPOIDCConfigAddedEventType) Ha Hc) as [HA _].
  destruct (IDPOIDCConfig_mappers_feed_write_model exampleOIDCAddedMapper exampleOIDCChangedMapper
    oidcEventstore (NewIDPOIDCConfigWriteModel "iam-1" "idp-2")
    (storedOIDCEvent IDPOIDCConfigChangedEventType) Ha Hc) as [_ HC].
  destruct (proj2 (HA eq_refl) (oidcAdded "idp-1") eq_refl) as [H1 H2].
  split; [exact H1|]. split; [rewrite H2; reflexivity|].
  exact (proj1 (HC eq_refl) _ eq_refl).
Defined.

(* ------------------------------------------------------------------ *)
(** ** The member commands: loading, pushing, reloading *)

(** The IAM read model folded from a list of mapped events. *)
Lemma iamByID_eq (r : Repository) (id : string) (st : Store) :
  iamByID r id st =
  (bindO (mapEvents (eventstore r) (filter (matches (iamQuery id)) (log st)))
     (fun evs => Ok (mkReadModel id (fold_left (fun s ev => Nat.max s (event_sequence ev)) evs 0)
                       [] (fold_left reduceMembers evs []))),
   record_call (CallFilter (iamQuery id)) st).
Proof.
  unfold iamByID, FilterToQueryReducer, FilterToReducer, FilterEvents, bindES, liftO, repoFilter.
  simpl. destruct (mapEvents _ _); reflexivity.
Qed.

Lemma iamByID_Ok (r : Repository) (id : string) (st st1 : Store) (iam : ReadModel) :
  iamByID r id st = (Ok iam, st1) ->
  st1 = record_call (CallFilter (iamQuery id)) st /\
  exists evs, mapEvents (eventstore r) (filter (matches (iamQuery id)) (log st)) = Ok evs /\
    iam = mkReadModel id (fold_left (fun s ev => Nat.max s (event_sequence ev)) evs 0)
            [] (fold_left reduceMembers evs []).
Proof.
  rewrite iamByID_eq. intros H. injection H as Hr <-. split; [reflexivity|].
  invert_binds. eexists. split; [eassumption | reflexivity].
Qed.

Lemma marshal_roles (roles : list string) :
  marshal (GSlice (map GString roles)) = Some (JArr (map JStr roles)).
Proof.
  induction roles as [|x rest IH]; simpl in *; [reflexivity|].
  match goal with |- context [match ?o with Some _ => _ | None => _ end] => destruct o end;
    simpl in *; congruence.
Qed.

Lemma decode_roles_map (roles : list string) :
  decode_roles (Some (JArr (map JStr roles))) = roles.
Proof.
  unfold decode_roles. induction roles as [|x rest IH]; simpl; [reflexivity|]. rewrite IH. reflexivity.
Qed.

Lemma eventData_member_added dec (u : string) (roles : list string) :
  eventData dec (GPtr (GStruct [("userId", GString u); ("roles", GSlice (map GString roles))])) =
  Ok (Some (JObj [("userId", JStr u); ("roles", JArr (map JStr roles))])).
Proof.
  assert (Hs : forall k1 v1 k2 v2, marshal (GStruct [(k1, v1); (k2, v2)]) =
            match marshal v1, marshal v2 with
            | Some j1, Some j2 => Some (JObj [(k1, j1); (k2, j2)])
            | _, _ => None
            end)
    by (intros; simpl; destruct (marshal v1), (marshal v2); reflexivity).
  unfold eventData. change (marshal (GPtr (GStruct [("userId", GString u);
    ("roles", GSlice (map GString roles))]))) with
    (marshal (GStruct [("userId", GString u); ("roles", GSlice (map GString roles))])).
  rewrite Hs, marshal_roles. reflexivity.
Qed.

(** Pushing one aggregate with one event. *)
Lemma PushAggregates_single dec es (a : Aggregate) (pe : PushEvent) d (st : Store) :
  agg_Events a = [pe] -> eventData dec (pe_Data pe) = Ok d ->
  PushAggregates dec es [a] st =
  bindES (repoPush [newRepoEvent a pe d None]) (fun stored => liftO (mapEvents es stored)) st.
Proof.
  intros Ha Hd. unfold PushAggregates, aggregatesToEvents. unfold bindES at 1. unfold liftO at 1.
  simpl. rewrite Ha. simpl. rewrite Hd. reflexivity.
Qed.

(** [AddIAMMember] once the member is valid, the IAM loaded and the user
    not a member yet: push, fold, look up. *)
Lemma AddIAMMember_after_load dec IsValid readModelToMember (ctx : Context) (r : Repository)
    (m : iam_model.IAMMember) (st st1 : Store) (iam : ReadModel) :
  IsValid m = true ->
  iamByID r (iam_model.AggregateID m) st = (Ok iam, st1) ->
  fst (MemberByUserID (rm_Members iam) (iam_model.UserID m)) = (-1)%Z ->
  AddIAMMember dec IsValid readModelToMember ctx r (Some m) st =
  match repoPush [newRepoEvent
                    (PushMemberAdded (AggregateFromReadModel iam) ctx (iam_model.UserID m) (iam_model.Roles m))
                    (NewMemberAddedEvent ctx (iam_model.UserID m) (iam_model.Roles m))
                    (Some (JObj [("userId", JStr (iam_model.UserID m));
                                 ("roles", JArr (map JStr (iam_model.Roles m)))])) None] st1 with
  | (Ok stored, st2) =>
      match mapEvents (eventstore r) stored with
      | Ok events =>
          match AppendAndReduce iam events with
          | Ok iam' => (returnMember (readModelToMember
                          (snd (MemberByUserID (rm_Members iam') (iam_model.UserID m)))), st2)
          | Err e => (Err e, st2)
          | Panic => (Panic, st2)
          end
      | Err e => (Err e, st2)
      | Panic => (Panic, st2)
      end
  | (Err e, st2) => (Err e, st2)
  | (Panic, st2) => (Panic, st2)
  end.
Proof.
  intros HV Hload Hidx.
  unfold AddIAMMember. rewrite HV. cbn [negb]. unfold bindES at 1. rewrite Hload.
  destruct (MemberByUserID (rm_Members iam) (iam_model.UserID m)) as [idx a].
  simpl in Hidx. subst idx. cbv [Z.ltb Z.compare CompOpp Pos.compare Pos.compare_cont]. cbv beta.
  unfold bindES at 1.
  rewrite (PushAggregates_single dec (eventstore r)
             (PushMemberAdded (AggregateFromReadModel iam) ctx (iam_model.UserID m) (iam_model.Roles m))
             (NewMemberAddedEvent ctx (iam_model.UserID m) (iam_model.Roles m)) _ st1 eq_refl
             (eventData_member_added dec _ _)).
  unfold bindES, liftO.
  destruct (repoPush _ st1) as [[stored| e |] st2]; [|reflexivity|reflexivity].
  destruct (mapEvents (eventstore r) stored) as [events| e |]; [|reflexivity|reflexivity].
  destruct (AppendAndReduce iam events) as [iam'| e |]; [|reflexivity|reflexivity].
  destruct (MemberByUserID (rm_Members iam') (iam_model.UserID m)) as [i2 am2]. simpl.
  destruct (readModelToMember am2); reflexivity.
Qed.

(** X8: A valid [AddIAMMember] of a user that is not a member yet reads the
    IAM once and then pushes one batch of one event: [iam.member.added] on
    the member's IAM, with the user and roles as payload, the loaded read
    model's processed sequence as previous sequence, checked, and the
    context's editor.  When no newer event of that IAM is in the log the
    event is appended with the next sequence; otherwise the push fails
    with a concurrency error and the log is left as it was. *)
Theorem AddIAMMember_pushes_member_added dec IsValid readModelToMember (ctx : Context)
    (r : Repository) (m : iam_model.IAMMember) (st st1 : Store) (iam : ReadModel) :
  IsValid m = true ->
  iamByID r (iam_model.AggregateID m) st = (Ok iam, st1) ->
  fst (MemberByUserID (rm_Members iam) (iam_model.UserID m)) = (-1)%Z ->
  exists ev,
    repository.AggregateID ev = iam_model.AggregateID m /\
    repository.AggregateType ev = AggregateType /\
    repository.Type_ ev = MemberAddedEventType /\
    repository.Data ev = Some (JObj [("userId", JStr (iam_model.UserID m));
                                     ("roles", JArr (map JStr (iam_model.Roles m)))]) /\
    repository.PreviousSequence ev = rm_ProcessedSequence iam /\
    repository.CheckPreviousSequence ev = true /\
    repository.EditorService ev = ctxEditorService ctx /\
    repository.EditorUser ev = ctxEditorUser ctx /\
    calls (snd (AddIAMMember dec IsValid readModelToMember ctx r (Some m) st)) =
      calls st ++ [CallFilter (iamQuery (iam_model.AggregateID m)); CallPush [ev]] /\
    (aggregate_max_sequence (log st) ev <= rm_ProcessedSequence iam ->
       log (snd (AddIAMMember dec IsValid readModelToMember ctx r (Some m) st)) =
         log st ++ [setSequence ev (S (max_sequence (log st)))]) /\
    (rm_ProcessedSequence iam < aggregate_max_sequence (log st) ev ->
       AddIAMMember dec IsValid readModelToMember ctx r (Some m) st =
         (Err (mkCaosError Concurrency "SQL-DJ7Pd" "concurrency conflict"),
          mkStore (log st) (calls st ++ [CallFilter (iamQuery (iam_model.AggregateID m));
                                         CallPush [ev]]))).
Proof.
  intros HV Hload Hidx.
  rewrite (AddIAMMember_after_load dec IsValid readModelToMember ctx r m st st1 iam HV Hload Hidx).
  destruct (iamByID_Ok _ _ _ _ _ Hload) as [-> (evs & _ & Hiam)].
  assert (Hid : rm_AggregateID iam = iam_model.AggregateID m) by (rewrite Hiam; reflexivity).
  set (ev := newRepoEvent
               (PushMemberAdded (AggregateFromReadModel iam) ctx (iam_model.UserID m) (iam_model.Roles m))
               (NewMemberAddedEvent ctx (iam_model.UserID m) (iam_model.Roles m))
               (Some (JObj [("userId", JStr (iam_model.UserID m));
                            ("roles", JArr (map JStr (iam_model.Roles m)))])) None).
  exists ev. repeat (split; [simpl; rewrite ?Hid; reflexivity|]).
  unfold repoPush. cbn [existsb record_call calls log].
  replace (repository.CheckPreviousSequence ev) with true by reflexivity.
  replace (repository.PreviousSequence ev) with (rm_ProcessedSequence iam) by reflexivity.
  rewrite orb_false_r, andb_true_l.
  split; [|split].
  - destruct (Nat.ltb _ _); [simpl; rewrite <- app_assoc; reflexivity|].
    destruct (mapEvents _ _) as [events| |]; [|simpl; rewrite <- app_assoc; reflexivity..].
    destruct (AppendAndReduce iam events) as [iam'| |]; simpl; [|rewrite <- app_assoc; reflexivity..].
    destruct (MemberByUserID _ _); simpl; rewrite <- app_assoc; reflexivity.
  - intros Hle. replace (Nat.ltb _ _) with false; [|symmetry; apply Nat.ltb_ge; exact Hle].
    destruct (mapEvents _ _) as [events| |]; [|reflexivity..].
    destruct (AppendAndReduce iam events) as [iam'| |]; [|reflexivity..].
    destruct (MemberByUserID _ _); reflexivity.
  - intros Hlt. replace (Nat.ltb _ _) with true; [|symmetry; apply Nat.ltb_lt; exact Hlt].
    unfold record_call; simpl. rewrite <- app_assoc. reflexivity.
Qed.

Lemma repoPush_single_ok (e : repository.Event) (st : Store) :
  (repository.CheckPreviousSequence e = false \/
   aggregate_max_sequence (log st) e <= repository.PreviousSequence e) ->
  repoPush [e] st =
  (Ok [setSequence e (S (max_sequence (log st)))],
   mkStore (log st ++ [setSequence e (S (max_sequence (log st)))]) (calls st ++ [CallPush [e]])).
Proof.
  intros H. unfold repoPush. simpl. rewrite orb_false_r.
  replace (repository.CheckPreviousSequence e &&
           Nat.ltb (repository.PreviousSequence e) (aggregate_max_sequence (log st) e)) with false;
    [reflexivity|].
  destruct H as [-> | H]; [reflexivity|]. symmetry. apply andb_false_intro2, Nat.ltb_ge, H.
Qed.

Lemma eventData_member_removed dec (u : string) :
  eventData dec (GPtr (GStruct [("userId", GString u)])) = Ok (Some (JObj [("userId", JStr u)])).
Proof. reflexivity. Qed.

Lemma MemberByUserID_from_app_absent (ms : list MemberReadModel) (u : string) (x : MemberReadModel) :
  forall i, ~ has_member ms u -> mr_UserID x = u ->
  snd (MemberByUserID_from i (ms ++ [x]) u) = Some x.
Proof.
  induction ms as [|m rest IH]; intros i Habs Hx; simpl.
  - rewrite Hx, String.eqb_refl. reflexivity.
  - destruct (String.eqb (mr_UserID m) u) eqn:E.
    + apply String.eqb_eq in E. exfalso. apply Habs. exists m. simpl. auto.
    + apply IH; [|exact Hx]. intros (y & Hin & Hy). apply Habs. exists y. simpl. auto.
Qed.

Lemma has_member_dec_absent (ms : list MemberReadModel) (u : string) :
  fst (MemberByUserID ms u) = (-1)%Z -> ~ has_member ms u.
Proof.
  intros H Hm. apply MemberByUserID_found in Hm. rewrite H in Hm. discriminate.
Qed.

Lemma matches_iamQuery (id : string) (e : repository.Event) :
  matches (iamQuery id) e =
  String.eqb (repository.AggregateType e) AggregateType && String.eqb (repository.AggregateID e) id.
Proof.
  unfold matches, iamQuery, in_strings. simpl. rewrite !orb_false_r, !andb_true_r. reflexivity.
Qed.

(** [RemoveIAMMember] once the IAM is loaded and the user is a member:
    push the removal, fold. *)
Lemma RemoveIAMMember_after_load dec (ctx : Context) (r : Repository)
    (m : iam_model.IAMMember) (st st1 : Store) (iam : ReadModel) :
  iamByID r (iam_model.AggregateID m) st = (Ok iam, st1) ->
  has_member (rm_Members iam) (iam_model.UserID m) ->
  RemoveIAMMember dec ctx r (Some m) st =
  match repoPush [newRepoEvent
                    (PushEvents (AggregateFromReadModel iam) [NewMemberRemovedEvent ctx (iam_model.UserID m)])
                    (NewMemberRemovedEvent ctx (iam_model.UserID m))
                    (Some (JObj [("userId", JStr (iam_model.UserID m))])) None] st1 with
  | (Ok stored, st2) =>
      match mapEvents (eventstore r) stored with
      | Ok events =>
          match AppendAndReduce iam events with
          | Ok _ => (Ok tt, st2)
          | Err e => (Err e, st2)
          | Panic => (Panic, st2)
          end
      | Err e => (Err e, st2)
      | Panic => (Panic, st2)
      end
  | (Err e, st2) => (Err e, st2)
  | (Panic, st2) => (Panic, st2)
  end.
Proof.
  intros Hload Hmem.
  unfold RemoveIAMMember. unfold bindES at 1. rewrite Hload.
  pose proof (MemberByUserID_found _ _ Hmem) as Hf.
  destruct (MemberByUserID (rm_Members iam) (iam_model.UserID m)) as [idx a].
  simpl in Hf. apply Z.ltb_lt in Hf.
  replace (Z.eqb idx (-1)) with false by (symmetry; apply Z.eqb_neq; lia).
  unfold bindES at 1.
  rewrite (PushAggregates_single dec (eventstore r)
             (PushEvents (AggregateFromReadModel iam) [NewMemberRemovedEvent ctx (iam_model.UserID m)])
             (NewMemberRemovedEvent ctx (iam_model.UserID m)) _ st1 eq_refl
             (eventData_member_removed dec _)).
  unfold bindES, liftO, retES.
  destruct (repoPush _ st1) as [[stored| e |] st2]; [|reflexivity|reflexivity].
  destruct (mapEvents (eventstore r) stored) as [events| e |]; [|reflexivity|reflexivity].
  destruct (AppendAndReduce iam events); reflexivity.
Qed.

Lemma mapEvents_member_added (es : Eventstore) (e : repository.Event) (u : string) (roles : list string) :
  eventMapper es !! MemberAddedEventType = Some {| interceptor_eventMapper := Some MemberAddedEventMapper |} ->
  repository.Type_ e = MemberAddedEventType ->
  repository.Data e = Some (JObj [("userId", JStr u); ("roles", JArr (map JStr roles))]) ->
  mapEvents es [e] = Ok [MemberAddedEvent (base_of e) u roles].
Proof.
  intros Hreg Ht Hd. simpl. rewrite Ht, Hreg. unfold MemberAddedEventMapper, decode_user.
  rewrite Hd.
  change (lookup_data "roles" (Some (JObj [("userId", JStr u); ("roles", JArr (map JStr roles))])))
    with (Some (JArr (map JStr roles))).
  rewrite decode_roles_map. reflexivity.
Qed.

Lemma mapEvents_member_removed (es : Eventstore) (e : repository.Event) (u : string) :
  eventMapper es !! MemberRemovedEventType = Some {| interceptor_eventMapper := Some MemberRemovedEventMapper |} ->
  repository.Type_ e = MemberRemovedEventType ->
  repository.Data e = Some (JObj [("userId", JStr u)]) ->
  mapEvents es [e] = Ok [MemberRemovedEvent (base_of e) u].
Proof.
  intros Hreg Ht Hd. simpl. rewrite Ht, Hreg. unfold MemberRemovedEventMapper, decode_user.
  rewrite Hd. reflexivity.
Qed.

(** A reload of the IAM after one more event of it was appended to the log. *)
Lemma iamByID_after_append (r : Repository) (id : string) (st : Store) (evs : list EventReader)
    (e : repository.Event) (ev : EventReader) (calls' : list PortCall) :
  mapEvents (eventstore r) (filter (matches (iamQuery id)) (log st)) = Ok evs ->
  repository.AggregateType e = AggregateType -> repository.AggregateID e = id ->
  mapEvents (eventstore r) [e] = Ok [ev] ->
  fst (iamByID r id (mkStore (log st ++ [e]) calls')) =
  Ok (mkReadModel id (Nat.max (fold_left (fun s ev => Nat.max s (event_sequence ev)) evs 0)
                               (event_sequence ev))
        [] (reduceMembers (fold_left reduceMembers evs []) ev)).
Proof.
  intros Hm Ht Hi He. rewrite iamByID_eq. simpl.
  rewrite filter_app, filter_cons_True, filter_nil.
  2:{ apply Is_true_true. rewrite matches_iamQuery, Ht, Hi, !String.eqb_refl. reflexivity. }
  rewrite (mapEvents_app_Ok _ _ _ _ Hm), He. simpl. rewrite !fold_left_app. reflexivity.
Qed.

Lemma reduceMembers_removed_absent (ms : list MemberReadModel) (b : BaseEvent) (u : string) :
  ~ has_member (reduceMembers ms (MemberRemovedEvent b u)) u /\
  (forall x, In x (reduceMembers ms (MemberRemovedEvent b u)) <-> In x ms /\ mr_UserID x <> u).
Proof.
  simpl. split.
  - intros (x & Hin & Hx). apply list_elem_of_In, list_elem_of_filter in Hin as [Hp _].
    apply Is_true_true in Hp. rewrite Hx, String.eqb_refl in Hp. discriminate.
  - intros x. rewrite <- list_elem_of_In, list_elem_of_filter, list_elem_of_In, Is_true_true.
    rewrite negb_true_iff, String.eqb_neq. tauto.
Qed.

(** X10: [RemoveIAMMember] of a user that is a member of the loaded IAM reads
    the IAM once and then pushes one batch of one event:
    [iam.member.removed] on the member's IAM with the user as payload, the
    loaded read model's processed sequence as previous sequence, checked,
    and the context's editor.  Without a newer event of that IAM in the
    log it is appended with the next sequence; otherwise the push fails
    with a concurrency error and the log is left as it was. *)
Theorem RemoveIAMMember_pushes_member_removed dec (ctx : Context) (r : Repository)
    (m : iam_model.IAMMember) (st st1 : Store) (iam : ReadModel) :
  iamByID r (iam_model.AggregateID m) st = (Ok iam, st1) ->
  has_member (rm_Members iam) (iam_model.UserID m) ->
  exists ev,
    repository.AggregateID ev = iam_model.AggregateID m /\
    repository.AggregateType ev = AggregateType /\
    repository.Type_ ev = MemberRemovedEventType /\
    repository.Data ev = Some (JObj [("userId", JStr (iam_model.UserID m))]) /\
    repository.PreviousSequence ev = rm_ProcessedSequence iam /\
    repository.CheckPreviousSequence ev = true /\
    repository.EditorService ev = ctxEditorService ctx /\
    repository.EditorUser ev = ctxEditorUser ctx /\
    calls (snd (RemoveIAMMember dec ctx r (Some m) st)) =
      calls st ++ [CallFilter (iamQuery (iam_model.AggregateID m)); CallPush [ev]] /\
    (aggregate_max_sequence (log st) ev <= rm_ProcessedSequence iam ->
       log (snd (RemoveIAMMember dec ctx r (Some m) st)) =
         log st ++ [setSequence ev (S (max_sequence (log st)))]) /\
    (rm_ProcessedSequence iam < aggregate_max_sequence (log st) ev ->
       RemoveIAMMember dec ctx r (Some m) st =
         (Err (mkCaosError Concurrency "SQL-DJ7Pd" "concurrency conflict"),
          mkStore (log st) (calls st ++ [CallFilter (iamQuery (iam_model.AggregateID m));
                                         CallPush [ev]]))).
Proof.
  intros Hload Hmem.
  rewrite (RemoveIAMMember_after_load dec ctx r m st st1 iam Hload Hmem).
  destruct (iamByID_Ok _ _ _ _ _ Hload) as [-> (evs & _ & Hiam)].
  assert (Hid : rm_AggregateID iam = iam_model.AggregateID m) by (rewrite Hiam; reflexivity).
  set (ev := newRepoEvent
               (PushEvents (AggregateFromReadModel iam) [NewMemberRemovedEvent ctx (iam_model.UserID m)])
               (NewMemberRemovedEvent ctx (iam_model.UserID m))
               (Some (JObj [("userId", JStr (iam_model.UserID m))])) None).
  exists ev. repeat (split; [simpl; rewrite ?Hid; reflexivity|]).
  unfold repoPush. cbn [existsb record_call calls log].
  replace (repository.CheckPreviousSequence ev) with true by reflexivity.
  replace (repository.PreviousSequence ev) with (rm_ProcessedSequence iam) by reflexivity.
  rewrite orb_false_r, andb_true_l.
  split; [|split].
  - destruct (Nat.ltb _ _); [simpl; rewrite <- app_assoc; reflexivity|].
    destruct (mapEvents _ _) as [events| |]; [|simpl; rewrite <- app_assoc; reflexivity..].
    destruct (AppendAndReduce iam events) as [iam'| |]; simpl; rewrite <- app_assoc; reflexivity.
  - intros Hle. replace (Nat.ltb _ _) with false; [|symmetry; apply Nat.ltb_ge; exact Hle].
    destruct (mapEvents _ _) as [events| |]; [|reflexivity..].
    destruct (AppendAndReduce iam events) as [iam'| |]; reflexivity.
  - intros Hlt. replace (Nat.ltb _ _) with true; [|symmetry; apply Nat.ltb_lt; exact Hlt].
    unfold record_call; simpl. rewrite <- app_assoc. reflexivity.
Qed.

(** X9: Round trip of [AddIAMMember] through the event log: with the
    [iam.member.added] mapper registered and no newer event of the IAM in
    the log, adding a user that is not a member yet returns
    [readModelToMember] of exactly the member read model with the given
    user and roles (decoded back from the stored payload), and reloading
    the IAM from the new log gives the old members followed by that
    member. *)
Theorem AddIAMMember_round_trip dec IsValid readModelToMember (ctx : Context) (r : Repository)
    (m : iam_model.IAMMember) (st st1 : Store) (iam : ReadModel) :
  IsValid m = true ->
  iamByID r (iam_model.AggregateID m) st = (Ok iam, st1) ->
  fst (MemberByUserID (rm_Members iam) (iam_model.UserID m)) = (-1)%Z ->
  eventMapper (eventstore r) !! MemberAddedEventType =
    Some {| interceptor_eventMapper := Some MemberAddedEventMapper |} ->
  max_sequence (filter (fun x => String.eqb (repository.AggregateType x) AggregateType &&
                                 String.eqb (repository.AggregateID x) (iam_model.AggregateID m))
                       (log st)) <= rm_ProcessedSequence iam ->
  exists st',
    AddIAMMember dec IsValid readModelToMember ctx r (Some m) st =
      (returnMember (readModelToMember
                       (Some (mkMemberReadModel (iam_model.UserID m) (iam_model.Roles m)))), st') /\
    exists iam',
      fst (iamByID r (iam_model.AggregateID m) st') = Ok iam' /\
      rm_Members iam' = rm_Members iam ++ [mkMemberReadModel (iam_model.UserID m) (iam_model.Roles m)].
Proof.
  intros HV Hload Hidx Hreg Hseq.
  pose proof (has_member_dec_absent _ _ Hidx) as Habs.
  rewrite (AddIAMMember_after_load dec IsValid readModelToMember ctx r m st st1 iam HV Hload Hidx).
  destruct (iamByID_Ok _ _ _ _ _ Hload) as [-> (evs & Hm & Hiam)].
  set (ev := newRepoEvent
               (PushMemberAdded (AggregateFromReadModel iam) ctx (iam_model.UserID m) (iam_model.Roles m))
               (NewMemberAddedEvent ctx (iam_model.UserID m) (iam_model.Roles m))
               (Some (JObj [("userId", JStr (iam_model.UserID m));
                            ("roles", JArr (map JStr (iam_model.Roles m)))])) None).
  assert (Hid : repository.AggregateID ev = iam_model.AggregateID m) by (subst iam; reflexivity).
  rewrite repoPush_single_ok.
  2:{ right. unfold aggregate_max_sequence. rewrite Hid. exact Hseq. }
  cbn [log record_call].
  set (ev' := setSequence ev (S (max_sequence (log st)))).
  assert (Hmap : mapEvents (eventstore r) [ev'] =
                 Ok [MemberAddedEvent (base_of ev') (iam_model.UserID m) (iam_model.Roles m)])
    by (apply mapEvents_member_added; [exact Hreg | reflexivity | reflexivity]).
  rewrite Hmap.
  eexists. split.
  - unfold AppendAndReduce, ReadModel_AppendEvents, ReadModel_Reduce. cbn [bindO].
    replace (rm_Events iam) with (@nil EventReader) by (subst iam; reflexivity).
    cbn [app fold_left rm_Members rm_AggregateID rm_ProcessedSequence rm_Events reduceMembers].
    unfold MemberByUserID.
    rewrite (MemberByUserID_from_app_absent _ _
               (mkMemberReadModel (iam_model.UserID m) (iam_model.Roles m)) 0%Z Habs eq_refl).
    reflexivity.
  - eexists. split.
    + apply (iamByID_after_append r _ st evs ev'
               (MemberAddedEvent (base_of ev') (iam_model.UserID m) (iam_model.Roles m)) _ Hm);
        [reflexivity | exact Hid | exact Hmap].
    + subst iam. reflexivity.
Qed.

(** X11: Round trip of [RemoveIAMMember] through the event log: with the
    [iam.member.removed] mapper registered and no newer event of the IAM
    in the log, removing a member succeeds, and reloading the IAM from the
    new log gives exactly the old members without that user. *)
Theorem RemoveIAMMember_then_reload dec (ctx : Context) (r : Repository)
    (m : iam_model.IAMMember) (st st1 : Store) (iam : ReadModel) :
  iamByID r (iam_model.AggregateID m) st = (Ok iam, st1) ->
  has_member (rm_Members iam) (iam_model.UserID m) ->
  eventMapper (eventstore r) !! MemberRemovedEventType =
    Some {| interceptor_eventMapper := Some MemberRemovedEventMapper |} ->
  max_sequence (filter (fun x => String.eqb (repository.AggregateType x) AggregateType &&
                                 String.eqb (repository.AggregateID x) (iam_model.AggregateID m))
                       (log st)) <= rm_ProcessedSequence iam ->
  exists st',
    RemoveIAMMember dec ctx r (Some m) st = (Ok tt, st') /\
    exists iam',
      fst (iamByID r (iam_model.AggregateID m) st') = Ok iam' /\
      ~ has_member (rm_Members iam') (iam_model.UserID m) /\
      (forall x, In x (rm_Members iam') <-> In x (rm_Members iam) /\ mr_UserID x <> iam_model.UserID m).
Proof.
  intros Hload Hmem Hreg Hseq.
  rewrite (RemoveIAMMember_after_load dec ctx r m st st1 iam Hload Hmem).
  destruct (iamByID_Ok _ _ _ _ _ Hload) as [-> (evs & Hm & Hiam)].
  set (ev := newRepoEvent
               (PushEvents (AggregateFromReadModel iam) [NewMemberRemovedEvent ctx (iam_model.UserID m)])
               (NewMemberRemovedEvent ctx (iam_model.UserID m))
               (Some (JObj [("userId", JStr (iam_model.UserID m))])) None).
  assert (Hid : repository.AggregateID ev = iam_model.AggregateID m) by (subst iam; reflexivity).
  rewrite repoPush_single_ok.
  2:{ right. unfold aggregate_max_sequence. rewrite Hid. exact Hseq. }
  cbn [log record_call].
  set (ev' := setSequence ev (S (max_sequence (log st)))).
  assert (Hmap : mapEvents (eventstore r) [ev'] =
                 Ok [MemberRemovedEvent (base_of ev') (iam_model.UserID m)])
    by (apply mapEvents_member_removed; [exact Hreg | reflexivity | reflexivity]).
  rewrite Hmap.
  eexists. split; [reflexivity|].
  eexists. split.
  - apply (iamByID_after_append r _ st evs ev'
             (MemberRemovedEvent (base_of ev') (iam_model.UserID m)) _ Hm);
      [reflexivity | exact Hid | exact Hmap].
  - cbn [rm_Members]. replace (fold_left reduceMembers evs []) with (rm_Members iam)
      by (subst iam; reflexivity).
    apply reduceMembers_removed_absent.
Qed.


Lemma MemberByID_state (r : Repository) (iamID userID : string) (st st' : Store) res :
  MemberByID r iamID userID st = (res, st') ->
  log st' = log st /\ calls st' = calls st ++ [CallFilter (memberByIDSearchQuery iamID userID)].
Proof.
  unfold MemberByID. intros H. apply FilterToReducer_state in H as [Hl Hc]. split; assumption.
Qed.

Section ChangeProofs.
Variable dec : string -> option json.
Variable IsValid : iam_model.IAMMember -> bool.
Variable readModelToMember : option MemberReadModel -> option iam_model.IAMMember.
Variable MemberWriteModel : Type.
Variable memberWriteModelByID : Repository -> string -> string -> ES MemberWriteModel.
Variable AggregateFromWriteModel : MemberWriteModel -> Aggregate.
Variable PushMemberChangedFromExisting :
  Aggregate -> Context -> MemberWriteModel -> list string -> Aggregate.


End ChangeProofs.

(* ------------------------------------------------------------------ *)
(** ** Instances of the member-command properties *)

Lemma AddIAMMember_pushes_member_added_witness :
  exampleIsValid (iam_model.mkIAMMember "iam-1" "u2" ["B"]) = true /\
  iamByID exampleRepository "iam-1" storeS1 = (Ok iamS1, storeS1Loaded) /\
  fst (MemberByUserID (rm_Members iamS1) "u2") = (-1)%Z /\
  exists ev,
    repository.Type_ ev = MemberAddedEventType /\
    calls (snd (AddIAMMember no_json_decode exampleIsValid exampleReadModelToMember exampleContext
                  exampleRepository (Some (iam_model.mkIAMMember "iam-1" "u2" ["B"])) storeS1)) =
      [CallFilter (iamQuery "iam-1"); CallPush [ev]].
Proof.
  assert (H1 : exampleIsValid (iam_model.mkIAMMember "iam-1" "u2" ["B"]) = true) by reflexivity.
  assert (H2 : iamByID exampleRepository "iam-1" storeS1 = (Ok iamS1, storeS1Loaded))
    by (vm_compute; reflexivity).
  assert (H3 : fst (MemberByUserID (rm_Members iamS1) "u2") = (-1)%Z) by reflexivity.
  split; [exact H1|]. split; [exact H2|]. split; [exact H3|].
  destruct (AddIAMMember_pushes_member_added no_json_decode exampleIsValid exampleReadModelToMember
              exampleContext exampleRepository (iam_model.mkIAMMember "iam-1" "u2" ["B"]) storeS1
              storeS1Loaded iamS1 H1 H2 H3)
    as (ev & _ & _ & Ht & _ & _ & _ & _ & _ & Hc & _).
  exists ev. split; [exact Ht | exact Hc].
Defined.

Lemma RemoveIAMMember_pushes_member_removed_witness :
  iamByID exampleRepository "iam-1" storeS1 = (Ok iamS1, storeS1Loaded) /\
  has_member (rm_Members iamS1) "u1" /\
  exists ev,
    repository.Type_ ev = MemberRemovedEventType /\
    calls (snd (RemoveIAMMember no_json_decode exampleContext exampleRepository
                  (Some (iam_model.mkIAMMember "iam-1" "u1" [])) storeS1)) =
      [CallFilter (iamQuery "iam-1"); CallPush [ev]].
Proof.
  assert (H1 : iamByID exampleRepository "iam-1" storeS1 = (Ok iamS1, storeS1Loaded))
    by (vm_compute; reflexivity).
  assert (H2 : has_member (rm_Members iamS1) "u1")
    by (exists (mkMemberReadModel "u1" ["A"]); simpl; auto).
  split; [exact H1|]. split; [exact H2|].
  destruct (RemoveIAMMember_pushes_member_removed no_json_decode exampleContext exampleRepository
              (iam_model.mkIAMMember "iam-1" "u1" []) storeS1 storeS1Loaded iamS1 H1 H2)
    as (ev & _ & _ & Ht & _ & _ & _ & _ & _ & Hc & _).
  exists ev. split; [exact Ht | exact Hc].
Defined.

Lemma AddIAMMember_round_trip_witness :
  exists st',
    AddIAMMember no_json_decode exampleIsValid exampleReadModelToMember exampleContext
      exampleRepository (Some (iam_model.mkIAMMember "iam-1" "u2" ["B"])) storeS1 =
      (Ok (Some (iam_model.mkIAMMember "" "u2" ["B"])), st') /\
    exists iam',
      fst (iamByID exampleRepository "iam-1" st') = Ok iam' /\
      rm_Members iam' = [mkMemberReadModel "u1" ["A"]; mkMemberReadModel "u2" ["B"]].
Proof.
  assert (H1 : exampleIsValid (iam_model.mkIAMMember "iam-1" "u2" ["B"]) = true) by reflexivity.
  assert (H2 : iamByID exampleRepository "iam-1" storeS1 = (Ok iamS1, storeS1Loaded))
    by (vm_compute; reflexivity).
  assert (H3 : fst (MemberByUserID (rm_Members iamS1) "u2") = (-1)%Z) by reflexivity.
  assert (H4 : eventMapper (eventstore exampleRepository) !! MemberAddedEventType =
               Some {| interceptor_eventMapper := Some MemberAddedEventMapper |}) by reflexivity.
  assert (H5 : max_sequence (filter (fun x => String.eqb (repository.AggregateType x) AggregateType &&
                                              String.eqb (repository.AggregateID x) "iam-1")
                                    (log storeS1)) <= rm_ProcessedSequence iamS1)
    by (vm_compute; lia).
  exact (AddIAMMember_round_trip no_json_decode exampleIsValid exampleReadModelToMember
           exampleContext exampleRepository (iam_model.mkIAMMember "iam-1" "u2" ["B"]) storeS1
           storeS1Loaded iamS1 H1 H2 H3 H4 H5).
Defined.

Lemma RemoveIAMMember_then_reload_witness :
  exists st',
    RemoveIAMMember no_json_decode exampleContext exampleRepository
      (Some (iam_model.mkIAMMember "iam-1" "u1" [])) storeS1 = (Ok tt, st') /\
    exists iam',
      fst (iamByID exampleRepository "iam-1" st') = Ok iam' /\
      ~ has_member (rm_Members iam') "u1" /\
      (forall x, In x (rm_Members iam') <-> In x (rm_Members iamS1) /\ mr_UserID x <> "u1").
Proof.
  assert (H1 : iamByID exampleRepository "iam-1" storeS1 = (Ok iamS1, storeS1Loaded))
    by (vm_compute; reflexivity).
  assert (H2 : has_member (rm_Members iamS1) "u1")
    by (exists (mkMemberReadModel "u1" ["A"]); simpl; auto).
  assert (H3 : eventMapper (eventstore exampleRepository) !! MemberRemovedEventType =
               Some {| interceptor_eventMapper := Some MemberRemovedEventMapper |}) by reflexivity.
  assert (H4 : max_sequence (filter (fun x => String.eqb (repository.AggregateType x) AggregateType &&
                                              String.eqb (repository.AggregateID x) "iam-1")
                                    (log storeS1)) <= rm_ProcessedSequence iamS1)
    by (vm_compute; lia).
  exact (RemoveIAMMember_then_reload no_json_decode exampleContext exampleRepository
           (iam_model.mkIAMMember "iam-1" "u1" []) storeS1 storeS1Loaded iamS1 H1 H2 H3 H4).
Defined.



(* ------------------------------------------------------------------ *)
(** ** What the test helper [compareEvents] does not look at *)

(** X14: [compareEvents] never checks an event's [Sequence], and it checks
    [PreviousEvent] only for being nil, not for the event it points to: a
    got event with another sequence, or linked to another event, gets the
    same verdict. *)
Theorem compareEvents_ignores_sequence_and_link_target (want got : repository.Event)
    (n : nat) (p q : Ptr) :
  compareEvents want (setSequence got n) = compareEvents want got /\
  compareEvents want (setPreviousEvent got (Some q)) =
    compareEvents want (setPreviousEvent got (Some p)).
Proof. split; reflexivity. Qed.
